(** * target_mysql: the MySQL sink (sinks.py)

    A shallow embedding of [MySQLSink]: set-up ([setup], [schema_name]),
    batch preparation ([bulk_insert_records], [sanitize_entry]), the
    staging-table merge ([upsert]), the per-batch pipeline
    ([process_batch]), the staging name ([generate_temp_table_name]) and
    version activation ([activate_version]), over a small model of the
    tables and namespaces the statements run against. *)

From Stdlib Require Import Ascii String.
From stdpp Require Import gmap strings list fin_maps pretty.

Local Open Scope string_scope.
Local Open Scope Z_scope.

(** ** Python values

    What a record field or a table cell can hold.  [VDecimal] is a
    [decimal.Decimal], kept by the text [str()] gives for it.  [VOther] is
    any other object (a float, a datetime, ...), kept by its [str()] and
    [repr()] texts, which is all the sink ever observes of it. *)

#[warnings="-register-all"]
Inductive value : Type :=
  | VNone
  | VBool (b : bool)
  | VInt (z : Z)
  | VStr (s : string)
  | VDecimal (d : string)
  | VList (l : list value)
  | VDict (d : list (string * value))
  | VOther (str_text repr_text : string).

Global Instance value_eq_dec : EqDecision value.
Proof.
  refine (fix go (a b : value) {struct a} : Decision (a = b) :=
    match a, b with
    | VNone, VNone => left _
    | VBool x, VBool y => cast_if (decide (x = y))
    | VInt x, VInt y => cast_if (decide (x = y))
    | VStr x, VStr y => cast_if (decide (x = y))
    | VDecimal x, VDecimal y => cast_if (decide (x = y))
    | VList x, VList y =>
        cast_if ((fix gol (x y : list value) {struct x} : Decision (x = y) :=
          match x, y with
          | [], [] => left _
          | a :: x', b :: y' => cast_if_and (go a b) (gol x' y')
          | _, _ => right _
          end) x y)
    | VDict x, VDict y =>
        cast_if ((fix god (x y : list (string * value)) {struct x}
                    : Decision (x = y) :=
          match x, y with
          | [], [] => left _
          | (k, a) :: x', (k', b) :: y' =>
              cast_if_and3 (decide (k = k')) (go a b) (god x' y')
          | _, _ => right _
          end) x y)
    | VOther s r, VOther s' r' => cast_if_and (decide (s = s')) (decide (r = r'))
    | _, _ => right _
    end); clear go; try clear gol; try clear god; abstract congruence.
Defined.

(** ** [str()] and [repr()] *)

Definition quote1 : ascii := Ascii.ascii_of_nat 39.
Definition quote2 : ascii := Ascii.ascii_of_nat 34.
Definition backslash : ascii := Ascii.ascii_of_nat 92.

Definition hex_digit (n : Z) : ascii :=
  Ascii.ascii_of_N (Z.to_N (if n <? 10 then 48 + n else 87 + n)).

Fixpoint str_mem (c : ascii) (s : string) : bool :=
  match s with
  | EmptyString => false
  | String c' s' => if decide (c = c') then true else str_mem c s'
  end.

(** One character of [repr(s)] for a [str] delimited by [q].  Bytes from
    128 up stand for the UTF-8 bytes of printable characters and are
    copied. *)
Definition repr_char (q c : ascii) : string :=
  let n := Z.of_N (Ascii.N_of_ascii c) in
  if decide (c = backslash) then String backslash (String backslash "")
  else if decide (c = q) then String backslash (String q "")
  else if n =? 9 then String backslash "t"
  else if n =? 10 then String backslash "n"
  else if n =? 13 then String backslash "r"
  else if (n <? 32) || (n =? 127) then
    String backslash
      (String "x" (String (hex_digit (n / 16)) (String (hex_digit (n mod 16)) "")))
  else String c "".

Fixpoint repr_chars (q : ascii) (s : string) : string :=
  match s with
  | EmptyString => ""
  | String c s' => repr_char q c +:+ repr_chars q s'
  end.

Definition repr_str (s : string) : string :=
  let q := if str_mem quote1 s && negb (str_mem quote2 s) then quote2 else quote1 in
  String q (repr_chars q s +:+ String q "").

(** [sep.join(l)] *)
Definition join (sep : string) (l : list string) : string :=
  match l with
  | [] => ""
  | x :: l' => foldl (λ acc y, acc +:+ sep +:+ y) x l'
  end.

Fixpoint py_repr (v : value) : string :=
  match v with
  | VNone => "None"
  | VBool true => "True"
  | VBool false => "False"
  | VInt z => pretty z
  | VStr s => repr_str s
  | VDecimal d => "Decimal('" +:+ d +:+ "')"
  | VList l => "[" +:+ join ", " (map py_repr l) +:+ "]"
  | VDict d =>
      "{" +:+ join ", " (map (λ kv, repr_str kv.1 +:+ ": " +:+ py_repr kv.2) d) +:+ "}"
  | VOther _ r => r
  end.

Definition py_str (v : value) : string :=
  match v with
  | VStr s => s
  | VDecimal d => d
  | VOther s _ => s
  | _ => py_repr v
  end.

(** ** Exceptions and the world the sink acts on *)

Inductive exn : Type :=
  | KeyError (key : string)
  | AttributeError (name : string)
  | RuntimeError (msg : string) (cause : exn)   (* [raise RuntimeError(msg) from e] *)
  | DatabaseError (stmt_table : string).        (* raised by the engine *)

Inductive outcome (A : Type) : Type :=
  | Return (a : A)
  | Raised (e : exn).
Arguments Return {A} a.
Arguments Raised {A} e.

(** A record of the stream, a prepared row and a table row are all
    mappings from field name to value; a field that is not in the mapping
    reads as [None], which is SQL's NULL for a row. *)
Abbreviation record := (gmap string value).

Definition cell (r : record) (c : string) : value := default VNone (r !! c).

Record table : Type := Table {
  columns : list string;
  rows : list record;
}.

(** The statements the sink issues, through the connector (DDL) or
    through [connection.execute] (DML). *)
Inductive stmt : Type :=
  | CreateSchema (name : string)
  | CreateTable (name : string) (cols primary_keys : list string) (temp : bool)
  | AddColumn (tbl col : string)
  | DropTable (name : string)
  | InsertIgnore (tbl : string) (data : list record)
  | InsertAll (to_table from_table : string) (names : list string)
  | InsertNew (to_table from_table : string) (join_keys names : list string)
  | UpdateExisting (to_table from_table : string) (join_keys cols : list string)
  | DeleteStale (tbl version_col : string) (new_version : Z)
  | MarkDeleted (tbl version_col deleted_col : string) (deletedate : value)
                (version : Z).

Definition is_ddl (s : stmt) : bool :=
  match s with
  | CreateSchema _ | CreateTable _ _ _ _ | AddColumn _ _ | DropTable _ => true
  | _ => false
  end.

Record world : Type := World {
  tables : gmap string table;
  log : list stmt;            (* every statement issued so far, oldest first *)
  schemas : gset string;      (* the namespaces that exist *)
}.

(** ** SQL conditions: three-valued logic, [None] is UNKNOWN *)

Definition sql_and (a b : option bool) : option bool :=
  match a, b with
  | Some false, _ | _, Some false => Some false
  | Some true, Some true => Some true
  | _, _ => None
  end.

Definition sql_or (a b : option bool) : option bool :=
  match a, b with
  | Some true, _ | _, Some true => Some true
  | Some false, Some false => Some false
  | _, _ => None
  end.

(** [sqlalchemy.and_] of a list of predicates.  With no predicate it
    renders as nothing: a WHERE clause is then left out and keeps every
    row; an ON clause is left empty, which is for [run_stmt] to reject. *)
Definition sql_and_list (preds : list (option bool)) : option bool :=
  foldr sql_and (Some true) preds.

Definition sql_is_null (v : value) : option bool := Some (bool_decide (v = VNone)).

(** [a = b]: UNKNOWN as soon as one side is NULL. *)
Definition sql_eq (a b : value) : option bool :=
  match a, b with
  | VNone, _ | _, VNone => None
  | _, _ => Some (bool_decide (a = b))
  end.

(** [a < n] and [a <= n] against an integer.  The version column is
    created with the integer type, so its cells are integers or NULL; a
    cell of another kind compares as UNKNOWN here. *)
Definition sql_lt (a : value) (n : Z) : option bool :=
  match a with VInt x => Some (x <? n) | _ => None end.

Definition sql_le (a : value) (n : Z) : option bool :=
  match a with VInt x => Some (x <=? n) | _ => None end.

(** A WHERE or ON clause keeps a row only when the condition is TRUE. *)
Definition holds (c : option bool) : bool :=
  match c with Some true => true | _ => false end.

(** ** Statement semantics on tables *)

(** [SELECT cols FROM ...] of one row. *)
Definition select_columns (cols : list string) (r : record) : record :=
  list_to_map (map (λ c, (c, cell r c)) cols).

(** [from_table.c == to_table.c] for every join key, AND-ed. *)
Definition join_condition (join_keys : list string) (s d : record) : option bool :=
  sql_and_list (map (λ k, sql_eq (cell s k) (cell d k)) join_keys).

(** [from_table.outerjoin(to_table, cond)]: every staging row with each
    destination row it matches, or alone when it matches none. *)
Definition outerjoin (cond : record → record → option bool)
    (from_rows to_rows : list record) : list (record * option record) :=
  from_rows ≫= λ s,
    match filter (λ d, holds (cond s d) = true) to_rows with
    | [] => [(s, None)]
    | ds => map (λ d, (s, Some d)) ds
    end.

(** A column of the destination side of the outer join. *)
Definition to_cell (d : option record) (k : string) : value :=
  match d with Some r => cell r k | None => VNone end.

(** [to_table.k IS NULL] for every join key, AND-ed. *)
Definition where_condition (join_keys : list string) (d : option record) : option bool :=
  sql_and_list (map (λ k, sql_is_null (to_cell d k)) join_keys).

(** [INSERT INTO to (names) SELECT names
      FROM from LEFT OUTER JOIN to ON join WHERE to.k IS NULL AND ...] *)
Definition insert_new (join_keys names : list string) (from_t to_t : table) : table :=
  let selected :=
    filter (λ sd, holds (where_condition join_keys sd.2) = true)
           (outerjoin (join_condition join_keys) (rows from_t) (rows to_t)) in
  Table (columns to_t)
        (rows to_t ++ map (λ sd, select_columns names sd.1) selected).

(** [SET to.c = from.c] for every listed column. *)
Definition overwrite (cols : list string) (s d : record) : record :=
  foldl (λ acc c, <[c := cell s c]> acc) d cols.

(** [UPDATE to, from SET to.c = from.c, ... WHERE join]: every
    destination row that a staging row matches is written once.  Which
    staging row is used when several match is left open by the engine;
    the first is taken. *)
Definition update_existing (join_keys cols : list string) (from_t to_t : table) : table :=
  Table (columns to_t)
        (map (λ d,
           match filter (λ s, holds (join_condition join_keys s d) = true) (rows from_t) with
           | s :: _ => overwrite cols s d
           | [] => d
           end) (rows to_t)).

(** [INSERT INTO to (names) SELECT names FROM from] *)
Definition insert_all (names : list string) (from_t to_t : table) : table :=
  Table (columns to_t) (rows to_t ++ map (select_columns names) (rows from_t)).

(** [DELETE FROM t WHERE v <= n OR v IS NULL] *)
Definition delete_where (version_col : string) (n : Z) (r : record) : option bool :=
  sql_or (sql_le (cell r version_col) n) (sql_is_null (cell r version_col)).

Definition delete_stale (version_col : string) (n : Z) (t : table) : table :=
  Table (columns t) (filter (λ r, holds (delete_where version_col n r) = false) (rows t)).

(** [UPDATE t SET d = :deletedate WHERE v < :version OR v IS NULL AND d IS NULL];
    in SQL [AND] binds tighter than [OR]. *)
Definition mark_where (version_col deleted_col : string) (n : Z) (r : record) : option bool :=
  sql_or (sql_lt (cell r version_col) n)
         (sql_and (sql_is_null (cell r version_col)) (sql_is_null (cell r deleted_col))).

Definition mark_deleted (version_col deleted_col : string) (deletedate : value) (n : Z)
    (t : table) : table :=
  Table (columns t)
        (map (λ r, if holds (mark_where version_col deleted_col n r)
                   then <[deleted_col := deletedate]> r else r) (rows t)).

(** [connection.execute(insert, data)] adds one row per parameter set.
    Handed no parameter set at all, it runs the statement once without
    values, which adds one row holding the default, NULL, in every
    column.  (The default of a primary-key column is not NULL and depends
    on the column's type, which the connector picks: the statements about
    upsert mode leave the empty batch out.) *)
Definition inserted_rows (data : list record) : list record :=
  match data with
  | [] => [∅]
  | _ => data
  end.

(** What a statement does to the tables; [None] when the engine rejects
    it: an unknown table or column, or an insert-new without join key,
    for which [sqlalchemy.and_] of no predicate leaves the ON clause of
    the outer join empty.

    Key constraints are not part of this model: [CreateTable] keeps the
    primary key in the log only, and [InsertIgnore] adds every row it is
    given.  What holds of the rows of a table because its key columns are
    its primary key, no NULL in them and one row per key tuple, is stated
    where it is needed, as [keys_not_null] and [unique_keys]. *)
Definition run_stmt (s : stmt) (ts : gmap string table) : option (gmap string table) :=
  match s with
  | CreateSchema _ => Some ts
  | CreateTable name cols _ _ => Some (<[name := Table cols []]> ts)
  | AddColumn t c =>
      tb ← ts !! t; Some (<[t := Table (columns tb ++ [c]) (rows tb)]> ts)
  | DropTable name => _ ← ts !! name; Some (delete name ts)
  | InsertIgnore t data =>
      tb ← ts !! t;
      Some (<[t := Table (columns tb) (rows tb ++ inserted_rows data)]> ts)
  | InsertAll to_ from_ names =>
      f ← ts !! from_; t ← ts !! to_; Some (<[to_ := insert_all names f t]> ts)
  | InsertNew to_ from_ keys names =>
      if bool_decide (keys = []) then None
      else f ← ts !! from_; t ← ts !! to_; Some (<[to_ := insert_new keys names f t]> ts)
  | UpdateExisting to_ from_ keys cols =>
      f ← ts !! from_; t ← ts !! to_; Some (<[to_ := update_existing keys cols f t]> ts)
  | DeleteStale t vcol n =>
      tb ← ts !! t;
      if bool_decide (vcol ∈ columns tb)
      then Some (<[t := delete_stale vcol n tb]> ts) else None
  | MarkDeleted t vcol dcol deletedate n =>
      tb ← ts !! t;
      if bool_decide (vcol ∈ columns tb) && bool_decide (dcol ∈ columns tb)
      then Some (<[t := mark_deleted vcol dcol deletedate n tb]> ts) else None
  end.

(** [CREATE SCHEMA] is the one statement that acts on the namespaces. *)
Definition run_schemas (s : stmt) (ns : gset string) : gset string :=
  match s with
  | CreateSchema name => {[name]} ∪ ns
  | _ => ns
  end.

Definition stmt_table (s : stmt) : string :=
  match s with
  | CreateSchema t | CreateTable t _ _ _ | AddColumn t _ | DropTable t | InsertIgnore t _
  | InsertAll t _ _ | InsertNew t _ _ _ | UpdateExisting t _ _ _
  | DeleteStale t _ _ | MarkDeleted t _ _ _ _ => t
  end.

(** ** The monad of sink methods: a world threaded through, exceptions
    that keep the world reached when they were raised *)

Definition M (A : Type) : Type := world → outcome A * world.

Global Instance M_ret : MRet M := λ A a w, (Return a, w).
Global Instance M_bind : MBind M := λ A B f m w,
  match m w with
  | (Return a, w') => f a w'
  | (Raised e, w') => (Raised e, w')
  end.

Definition raise {A} (e : exn) : M A := λ w, (Raised e, w).

Definition lift {A} (o : outcome A) : M A := λ w, (o, w).

(** Exceptions in code that touches no table. *)
Global Instance outcome_ret : MRet outcome := λ A a, Return a.
Global Instance outcome_bind : MBind outcome := λ A B f m,
  match m with
  | Return a => f a
  | Raised e => Raised e
  end.

(** [connection.execute(stmt)] *)
Definition execute (s : stmt) : M unit := λ w,
  match run_stmt s (tables w) with
  | Some ts => (Return (), World ts (log w ++ [s]) (run_schemas s (schemas w)))
  | None =>
      (Raised (DatabaseError (stmt_table s)), World (tables w) (log w ++ [s]) (schemas w))
  end.

(** ** The connector *)

(** A [sqlalchemy.Table] as the sink holds it. *)
Record handle : Type := Handle {
  h_name : string;
  h_schema : option string;
  h_columns : list string;
}.

(** Modelled from the spec: the connector module (section 4.1,
    [table_exists]). *)
Definition table_exists (full_table_name : string) : M bool := λ w,
  (Return (bool_decide (is_Some (tables w !! full_table_name))), w).



(** Modelled from the spec: the connector module (section 4.1,
    [column_exists]). *)
Definition column_exists (full_table_name column_name : string) : M bool := λ w,
  (Return (match tables w !! full_table_name with
           | Some tb => bool_decide (column_name ∈ columns tb)
           | None => false
           end), w).

(** Modelled from the spec: the connector module (section 4.1,
    [add_column]: adds a nullable column). *)
Definition prepare_column (full_table_name column_name : string) : M unit :=
  execute (AddColumn full_table_name column_name).

(** Modelled from the spec: the connector module (section 4.1,
    [ensure_table]: creates the table if absent or returns a handle to the
    existing one; a temporary table is always created anew).  The
    namespace part of a handle is not modelled. *)
Definition prepare_table (full_table_name : string) (cols primary_keys : list string)
    (as_temp_table : bool) : M handle := λ w,
  match tables w !! full_table_name, as_temp_table with
  | Some tb, false => (Return (Handle full_table_name None (columns tb)), w)
  | _, _ =>
      (_ ← execute (CreateTable full_table_name cols primary_keys as_temp_table);
       mret (Handle full_table_name None cols)) w
  end.

(** Modelled from the spec: the connector module (section 4.2, [drop]). *)
Definition drop_table (t : handle) : M unit := execute (DropTable (h_name t)).

(** ** The sink *)

Record MySQLSink : Type := Sink {
  full_table_name : string;
  schema_properties : list (string * value);   (* [self.schema["properties"]] *)
  key_properties : list string;                (* [None] is held as [[]] *)
  _append_only : option bool;                  (* unset until [setup] *)
  temp_table_name : string;
  hard_delete : bool;                          (* [self.config["hard_delete"] is True] *)
  version_column_name : string;
  soft_delete_column_name : string;
  default_target_schema : option string;       (* [self.config.get("default_target_schema")] *)
  stream_name : string;
}.

(** *** [generate_temp_table_name] *)

(** [uuid.uuid4()]: sixteen bytes of [os.urandom], read as a big-endian
    integer, with the variant and version bits set. *)
Definition uuid4 (random_bytes : Z) : Z :=
  let i := random_bytes mod 2 ^ 128 in
  let i := Z.lor (Z.land i (Z.lnot (Z.shiftl 0xc000 48))) (Z.shiftl 0x8000 48) in
  Z.lor (Z.land i (Z.lnot (Z.shiftl 0xf000 64))) (Z.shiftl 4 76).

(** ['%032x' % n] *)
Definition hex32 (n : Z) : string :=
  string_of_list_ascii
    (map (λ i : nat, hex_digit (Z.land (Z.shiftr n (4 * (31 - Z.of_nat i))) 15)) (seq 0 32)).

(** [str(u)] for a UUID: the digits grouped 8-4-4-4-12. *)
Definition uuid_str (u : Z) : string :=
  let h := hex32 u in
  substring 0 8 h +:+ "-" +:+ substring 8 4 h +:+ "-" +:+ substring 12 4 h +:+ "-"
    +:+ substring 16 4 h +:+ "-" +:+ substring 20 12 h.

(** [s.replace(a, b)] for single characters. *)
Fixpoint str_replace (a b : ascii) (s : string) : string :=
  match s with
  | EmptyString => EmptyString
  | String c s' => String (if decide (c = a) then b else c) (str_replace a b s')
  end.

Definition generate_temp_table_name (random_bytes : Z) : string :=
  str_replace "-" "_" (uuid_str (uuid4 random_bytes)).


(** The [append_only] property. *)
Definition append_only (self : MySQLSink) : M bool :=
  match _append_only self with
  | Some b => mret b
  | None => raise (AttributeError "_append_only")
  end.

(** *** [column_representation]: one column per schema property, in
    order.  Only the names reach the statements; the SQL types come from
    the connector's type mapper. *)
Definition column_representation (properties : list (string * value)) : list string :=
  map fst properties.

(** *** [conform_name] and the [schema_name] property *)

(** [s.split(sep)] for a one-character separator. *)
Fixpoint str_split (sep : ascii) (s : string) : list string :=
  match s with
  | EmptyString => [""]
  | String c s' =>
      if decide (c = sep) then "" :: str_split sep s'
      else match str_split sep s' with
           | p :: ps => String c p :: ps
           | [] => [String c ""]
           end
  end.

Definition conform_name (name : string) (object_type : option string) : string := name.

(** [parts[-2]], read only where the list has two or three parts. *)
Definition second_to_last (parts : list string) : string :=
  default "" (parts !! (length parts - 2)%nat).

(** [default_target_schema] is [self.config.get("default_target_schema", None)];
    [None] and the empty string are both false in [if default_target_schema:]. *)
Definition schema_name (default_target_schema : option string) (stream_name : string)
    : option string :=
  let parts := str_split "-" stream_name in
  match default_target_schema with
  | Some s => if negb (bool_decide (s = "")) then Some s
              else if bool_decide (length parts = 2%nat ∨ length parts = 3%nat)
                   then Some (conform_name (second_to_last parts) (Some "schema"))
                   else None
  | None => if bool_decide (length parts = 2%nat ∨ length parts = 3%nat)
            then Some (conform_name (second_to_last parts) (Some "schema"))
            else None
  end.





(** *** [sanitize_entry] *)
Fixpoint sanitize_entry (to_sanitize : value) : value :=
  match to_sanitize with
  | VDict d => VDict (map (λ kv, (kv.1, sanitize_entry kv.2)) d)
  | VList l => VList (map sanitize_entry l)
  | VDecimal d => VStr d
  | v => v
  end.

(** [isinstance(v, (dict, list, Decimal))] *)
Definition is_dict_list_decimal (v : value) : bool :=
  match v with
  | VDict _ | VList _ | VDecimal _ => true
  | _ => false
  end.

(** *** [bulk_insert_records] *)

(** A [dict] with [str] keys and its insertion order: assigning to a key
    that is present keeps its place. *)
Fixpoint dict_set {V : Type} (k : string) (v : V) (d : list (string * V))
    : list (string * V) :=
  match d with
  | [] => [(k, v)]
  | (k', v') :: d' =>
      if decide (k = k') then (k', v) :: d' else (k', v') :: dict_set k v d'
  end.

Definition dict_values {V : Type} (d : list (string * V)) : list V := map snd d.

(** The inner loop of both branches without sanitizing:
    [insert_record[column.name] = record.get(column.name)]. *)
Definition project (cols : list string) (r : record) : record :=
  foldl (λ insert_record c, <[c := cell r c]> insert_record) ∅ cols.

(** ["".join([str(record[key]) for key in primary_keys])] *)
Fixpoint primary_key_parts (primary_keys : list string) (r : record)
    : outcome (list string) :=
  match primary_keys with
  | [] => Return []
  | key :: keys =>
      match r !! key with
      | None => Raised (KeyError key)
      | Some v => parts ← primary_key_parts keys r; Return (py_str v :: parts)
      end
  end.

Definition primary_key_value (primary_keys : list string) (r : record) : outcome string :=
  parts ← primary_key_parts primary_keys r; Return (join "" parts).

(** The loop of the branch [append_only is False]. *)
Fixpoint dedup_loop (cols primary_keys : list string) (records : list record)
    (insert_records : list (string * record)) : outcome (list (string * record)) :=
  match records with
  | [] => Return insert_records
  | r :: rest =>
      let insert_record := project cols r in
      pk ← primary_key_value primary_keys r;
      dedup_loop cols primary_keys rest (dict_set pk insert_record insert_records)
  end.

(** The loop of the [else] branch. *)
Definition append_row (cols : list string) (r : record) : record :=
  foldl (λ insert_record c,
           if is_dict_list_decimal (cell r c)
           then <[c := sanitize_entry (cell r c)]> insert_record
           else <[c := cell r c]> insert_record) ∅ cols.

Definition missing_key_msg (t : handle) (primary_keys : list string) : string :=
  "Primary key not found in record. full_table_name: " +:+ h_name t +:+ ". "
  +:+ "schema: " +:+ py_str (from_option VStr VNone (h_schema t)) +:+ ".  primary_keys: "
  +:+ py_repr (VList (map VStr primary_keys)) +:+ ".".

(** Everything up to the final [execute]: the rows to insert. *)
Definition prepare_records (append_only : bool) (t : handle) (cols : list string)
    (records : list record) (primary_keys : list string) : outcome (list record) :=
  if negb append_only then
    match dedup_loop cols primary_keys records [] with
    | Return insert_records => Return (dict_values insert_records)
    | Raised (KeyError k) =>
        Raised (RuntimeError (missing_key_msg t primary_keys) (KeyError k))
    | Raised e => Raised e
    end
  else Return (map (append_row cols) records).

Definition bulk_insert_records (self : MySQLSink) (t : handle)
    (schema : list (string * value)) (records : list record)
    (primary_keys : list string) : M bool :=
  let cols := column_representation schema in
  ao ← append_only self;
  data_to_insert ← lift (prepare_records ao t cols records primary_keys);
  _ ← execute (InsertIgnore (h_name t) data_to_insert);
  mret true.

(** *** [upsert] *)

(** [t.columns[key]] *)
Definition column_lookup (t : handle) (key : string) : outcome unit :=
  if bool_decide (key ∈ h_columns t) then Return () else Raised (KeyError key).

Fixpoint for_each {A : Type} (f : A → outcome unit) (l : list A) : outcome unit :=
  match l with
  | [] => Return ()
  | x :: l' => _ ← f x; for_each f l'
  end.

Definition upsert (self : MySQLSink) (from_table to_table : handle)
    (join_keys : list string) : M unit :=
  ao ← append_only self;
  if (ao : bool) return M unit then
    execute (InsertAll (h_name to_table) (h_name from_table) (h_columns from_table))
  else
    (* join_predicates, then where_predicates *)
    _ ← lift (for_each (λ key, _ ← column_lookup from_table key;
                               column_lookup to_table key) join_keys);
    _ ← lift (for_each (column_lookup to_table) join_keys);
    _ ← execute (InsertNew (h_name to_table) (h_name from_table) join_keys
                           (h_columns from_table));
    (* Update *)
    let names := map fst (schema_properties self) in
    _ ← lift (for_each (λ column_name, _ ← column_lookup from_table column_name;
                                       column_lookup to_table column_name) names);
    execute (UpdateExisting (h_name to_table) (h_name from_table) join_keys names).

(** *** [process_batch] *)
Definition process_batch (self : MySQLSink) (records : list record) : M unit :=
  let cols := column_representation (schema_properties self) in
  (* First we need to be sure the main table is already created *)
  t ← prepare_table (full_table_name self) cols (key_properties self) false;
  (* Create a temp table *)
  temp_table ← prepare_table (temp_table_name self) cols (key_properties self) true;
  (* Insert into temp table *)
  _ ← bulk_insert_records self temp_table (schema_properties self) records
                          (key_properties self);
  (* Merge data from Temp table to main table *)
  _ ← upsert self temp_table t (key_properties self);
  (* Drop temp table *)
  drop_table temp_table.

(** *** [activate_version]; [deleted_at] is what [now()] returns. *)
Definition activate_version (self : MySQLSink) (new_version : Z) (deleted_at : value)
    : M unit :=
  (* There's nothing to do if the table doesn't exist yet *)
  found ← table_exists (full_table_name self);
  if negb (found : bool) return M unit then mret () else
  has_version ← column_exists (full_table_name self) (version_column_name self);
  _ ← (if negb has_version
       then prepare_column (full_table_name self) (version_column_name self)
       else mret ());
  if hard_delete self return M unit then
    execute (DeleteStale (full_table_name self) (version_column_name self) new_version)
  else
    has_deleted ← column_exists (full_table_name self) (soft_delete_column_name self);
    _ ← (if negb has_deleted
         then prepare_column (full_table_name self) (soft_delete_column_name self)
         else mret ());
    (* Need to deal with the case where data doesn't exist for the version column *)
    execute (MarkDeleted (full_table_name self) (version_column_name self)
                         (soft_delete_column_name self) deleted_at new_version).

(** ** Vocabulary of the statements below *)

(** The row's version is an integer at most [n], or it is NULL. *)
Definition stale_or_null (version_col : string) (n : Z) (r : record) : Prop :=
  (∃ z, cell r version_col = VInt z ∧ z ≤ n) ∨ cell r version_col = VNone.

Global Instance stale_or_null_dec version_col n r :
  Decision (stale_or_null version_col n r).
Proof.
  unfold stale_or_null.
  destruct (cell r version_col) as [| b | z | s | d | l | d | s t].
  2: right; abstract (intros [(z' & Hz & _) | Hn]; congruence).
  3-7: right; abstract (intros [(z' & Hz & _) | Hn]; congruence).
  - left. abstract (by right).
  - destruct (decide (z ≤ n)) as [Hle | Hgt].
    + left. abstract (left; eauto).
    + right. abstract (intros [(z' & Hz & Hle) | Hn]; [injection Hz as ->; lia | discriminate]).
Defined.

(** The soft-delete statement writes the row: its version is an integer
    below [n], or both its version and its deletion timestamp are NULL. *)
Definition marked (version_col deleted_col : string) (n : Z) (r : record) : Prop :=
  (∃ z, cell r version_col = VInt z ∧ z < n)
  ∨ (cell r version_col = VNone ∧ cell r deleted_col = VNone).

(** ** Fixtures *)

Definition row (l : list (string * value)) : record := list_to_map l.

Definition users_sink (hard : bool) : MySQLSink :=
  Sink "users" [("id", VDict [("type", VStr "integer")]);
                ("name", VDict [("type", VStr "string")])]
       ["id"] (Some false) (generate_temp_table_name 0) hard
       "_sdc_table_version" "_sdc_deleted_at" None "users".

Definition user (id : Z) (version : value) : record :=
  row [("id", VInt id); ("_sdc_table_version", version)].

(** Versions 1, 2, 3 and NULL. *)
Definition users_1_2_3_null : world :=
  World {[ "users" := Table ["id"; "name"; "_sdc_table_version"]
                            [user 1 (VInt 1); user 2 (VInt 2); user 3 (VInt 3);
                             user 4 VNone] ]} [] ∅.

(** Versions 1, 2 and NULL, nothing soft-deleted yet. *)
Definition users_1_2_null : world :=
  World {[ "users" := Table ["id"; "name"; "_sdc_table_version"; "_sdc_deleted_at"]
                            [user 1 (VInt 1); user 2 (VInt 2); user 3 VNone] ]} [] ∅.

Definition instant (iso : string) : value :=
  VOther iso ("DateTime(" +:+ iso +:+ ")").

(** The string the dedup branch groups by, for a record that has every
    key field: the [str()] of each key value, concatenated. *)
Definition composite_key (primary_keys : list string) (r : record) : string :=
  join "" (map (λ k, py_str (cell r k)) primary_keys).

(** The values of the primary-key fields of a record, as a tuple. *)
Definition pk_tuple (primary_keys : list string) (r : record) : list value :=
  map (cell r) primary_keys.

(** [sub in s] *)
Definition str_contains (sub s : string) : Prop :=
  ∃ pre post, s = pre +:+ sub +:+ post.

(** A record has every primary-key field (its value may be [None]). *)
Definition has_keys (primary_keys : list string) (r : record) : Prop :=
  Forall (λ k, is_Some (r !! k)) primary_keys.

(** The dict the dedup loop builds when no record lacks a key field. *)
Definition dedup_fold (cols primary_keys : list string) (records : list record)
    (insert_records : list (string * record)) : list (string * record) :=
  foldl (λ d r, dict_set (composite_key primary_keys r) (project cols r) d)
        insert_records records.

(** The last record of the batch whose composite key is [k]. *)
Definition last_with_key (primary_keys : list string) (k : string)
    (records : list record) : option record :=
  last (filter (λ r, composite_key primary_keys r = k) records).

(** Some [Decimal] occurs in the value, at any depth. *)
Fixpoint has_decimal (v : value) : bool :=
  match v with
  | VDecimal _ => true
  | VList l => existsb has_decimal l
  | VDict d => existsb (λ kv, has_decimal kv.2) d
  | _ => false
  end.

(** The statements issued between two worlds of one run. *)
Definition issued (w w' : world) : list stmt := drop (length (log w)) (log w').





(** The join on the primary-key columns pairs staging row [s] with
    destination row [d]. *)
Definition matches (join_keys : list string) (s d : record) : Prop :=
  holds (join_condition join_keys s d) = true.

(** No destination row is paired with [s]. *)
Definition unmatched (join_keys : list string) (to_rows : list record) (s : record) : Prop :=
  Forall (λ d, ¬ matches join_keys s d) to_rows.

(** No primary-key column of the row is NULL. *)
Definition keys_not_null (join_keys : list string) (r : record) : Prop :=
  Forall (λ k, cell r k ≠ VNone) join_keys.

(** At most one row per primary-key tuple. *)
Definition unique_keys (join_keys : list string) (rs : list record) : Prop :=
  NoDup (map (pk_tuple join_keys) rs).

(** What [update_existing] does to one destination row. *)
Definition update_row (join_keys cols : list string) (from_rows : list record)
    (d : record) : record :=
  match filter (λ s, holds (join_condition join_keys s d) = true) from_rows with
  | s :: _ => overwrite cols s d
  | [] => d
  end.

(** The two statements of the merge, on the two tables. *)
Definition merge (join_keys names cols : list string) (from_t to_t : table) : table :=
  update_existing join_keys cols from_t (insert_new join_keys names from_t to_t).

Global Instance unmatched_dec join_keys to_rows s :
  Decision (unmatched join_keys to_rows s).
Proof. unfold unmatched, matches. apply _. Defined.

(** The setting of a merge: the sink is in upsert mode with some key, the
    two handles name different tables of the world, [from_t] and [to_t],
    and carry the key columns and the schema's columns. *)
Definition merge_ready (self : MySQLSink) (from_table to_table : handle)
    (join_keys : list string) (w : world) (from_t to_t : table) : Prop :=
  _append_only self = Some false ∧
  join_keys ≠ [] ∧
  join_keys ⊆ h_columns from_table ∧
  join_keys ⊆ h_columns to_table ∧
  map fst (schema_properties self) ⊆ h_columns from_table ∧
  map fst (schema_properties self) ⊆ h_columns to_table ∧
  h_name from_table ≠ h_name to_table ∧
  tables w !! h_name from_table = Some from_t ∧
  tables w !! h_name to_table = Some to_t.

(** The handles of a staging table and of the destination. *)
Definition staging_handle : handle := Handle "staging" None ["id"; "name"].
Definition users_handle : handle := Handle "users" None ["id"; "name"].

(** A staging table with one new and one known key. *)
Definition two_keys_world : world :=
  World {[ "staging" := Table ["id"; "name"]
                              [row [("id", VInt 1); ("name", VStr "ann")];
                               row [("id", VInt 2); ("name", VStr "bob")]];
           "users" := Table ["id"; "name"; "_sdc_table_version"]
                            [row [("id", VInt 2); ("name", VStr "old");
                                  ("_sdc_table_version", VInt 5)]] ]} [] ∅.

(** The world after making sure that table [name], now [tb], has column
    [col]: as it was when the column is there, with the column added
    otherwise. *)
Definition with_column (name col : string) (tb : table) (w : world) : world :=
  if bool_decide (col ∈ columns tb) then w
  else World (<[name := Table (columns tb ++ [col]) (rows tb)]> (tables w))
             (log w ++ [AddColumn name col]) (schemas w).

Definition add_column (col : string) (tb : table) : table :=
  if bool_decide (col ∈ columns tb) then tb else Table (columns tb ++ [col]) (rows tb).

(** A world with the destination of [users_sink] and nothing else. *)
Definition users_only_world : world :=
  World {[ "users" := Table ["id"; "name"]
                            [row [("id", VInt 2); ("name", VStr "old")]] ]} [] ∅.

Definition append_sink : MySQLSink :=
  Sink "events" [("at", VDict [("type", VStr "string")]);
                 ("cost", VDict [("type", VStr "number")])]
       [] (Some true) (generate_temp_table_name 1) false
       "_sdc_table_version" "_sdc_deleted_at" None "events".

(** The distinct elements of a list, in the order in which they first
    occur. *)
Fixpoint first_occurrences (l : list string) : list string :=
  match l with
  | [] => []
  | k :: l' => k :: filter (λ x, x ≠ k) (first_occurrences l')
  end.

(** Every character of the string satisfies [P]. *)
Fixpoint str_forall (P : ascii → bool) (s : string) : bool :=
  match s with
  | EmptyString => true
  | String c s' => P c && str_forall P s'
  end.

Definition is_hex_char (c : ascii) : bool :=
  let n := Z.of_N (Ascii.N_of_ascii c) in
  ((48 <=? n) && (n <=? 57)) || ((97 <=? n) && (n <=? 102)).

(** A lower-case hexadecimal digit or an underscore. *)
Definition is_token_char (c : ascii) : bool :=
  is_hex_char c || bool_decide (c = "_"%char).

(** No default schema is configured. *)
Definition no_default (default_target_schema : option string) : Prop :=
  default_target_schema = None ∨ default_target_schema = Some "".

(** The record has every key field, none of them [None]. *)
Definition has_key_values (primary_keys : list string) (r : record) : Prop :=
  Forall (λ k, ∃ v, r !! k = Some v ∧ v ≠ VNone) primary_keys.

(** * Induction on values *)

(** The induction principle that reaches into lists and dict items. *)
Lemma value_ind' (P : value → Prop) :
  P VNone →
  (∀ b, P (VBool b)) →
  (∀ z, P (VInt z)) →
  (∀ s, P (VStr s)) →
  (∀ d, P (VDecimal d)) →
  (∀ l, Forall P l → P (VList l)) →
  (∀ d, Forall (λ kv, P kv.2) d → P (VDict d)) →
  (∀ s r, P (VOther s r)) →
  ∀ v, P v.
Proof.
  intros HN HB HI HS HD HL HM HO.
  fix IH 1. intros [| b | z | s | d | l | d | s r].
  - exact HN.
  - apply HB.
  - apply HI.
  - apply HS.
  - apply HD.
  - apply HL. induction l as [| x l IHl]; constructor; [apply IH | exact IHl].
  - apply HM. induction d as [| [k x] d IHd]; constructor; [apply IH | exact IHd].
  - apply HO.
Qed.

(** * Checks of the Python primitives on small inputs *)

Example py_str_none : py_str VNone = "None".
Proof. reflexivity. Qed.

Example py_str_int : py_str (VInt (-42)) = "-42".
Proof. reflexivity. Qed.

Example py_repr_list :
  py_repr (VList [VStr "id"; VStr "it's"; VInt 3]) =
  "['id', " +:+ String quote2 ("it's" +:+ String quote2 ", 3]").
Proof. vm_compute. reflexivity. Qed.

Example temp_table_name_0 :
  generate_temp_table_name 0 = "00000000_0000_4000_8000_000000000000".
Proof. vm_compute. reflexivity. Qed.

(** * Running statements *)

Lemma execute_ok s w ts :
  run_stmt s (tables w) = Some ts →
  execute s w = (Return (), World ts (log w ++ [s]) (run_schemas s (schemas w))).
Proof. unfold execute. by intros ->. Qed.

Lemma bind_run {A B} (m : M A) (f : A → M B) w a w1 :
  m w = (Return a, w1) → (m ≫= f) w = f a w1.
Proof. intros Hm. unfold mbind, M_bind. by rewrite Hm. Qed.

Lemma bind_raise {A B} (m : M A) (f : A → M B) w e w1 :
  m w = (Raised e, w1) → (m ≫= f) w = (Raised e, w1).
Proof. intros Hm. unfold mbind, M_bind. by rewrite Hm. Qed.

(** * Version activation *)

Lemma delete_where_holds version_col n r :
  holds (delete_where version_col n r) = true ↔ stale_or_null version_col n r.
Proof.
  unfold delete_where, stale_or_null, sql_le, sql_is_null.
  destruct (cell r version_col) as [| b | z | s | d | l | d | s t] eqn:E; simpl;
    try (split; [discriminate | intros [(z' & Hz & _) | Hn]; congruence]).
  - split; [by right | done].
  - destruct (Z.leb_spec z n); simpl.
    + split; [intros _; left; eauto | done].
    + split; [discriminate |].
      intros [(z' & Hz & Hle) | Hn]; [| discriminate].
      injection Hz as ->. lia.
Qed.

Lemma delete_stale_rows version_col n t :
  rows (delete_stale version_col n t) =
  filter (λ r, ¬ stale_or_null version_col n r) (rows t).
Proof.
  unfold delete_stale. simpl. apply list_filter_iff. intros r.
  rewrite <- delete_where_holds. by destruct (holds _).
Qed.

Lemma mark_where_holds version_col deleted_col n r :
  holds (mark_where version_col deleted_col n r) = true ↔
  marked version_col deleted_col n r.
Proof.
  unfold mark_where, marked, sql_lt, sql_is_null.
  destruct (cell r version_col) as [| b | z | s | d | l | d | s t] eqn:E; simpl;
    try (split; [discriminate | intros [(z' & Hz & _) | [Hn _]]; congruence]).
  - destruct (cell r deleted_col); simpl;
      (split; [try discriminate; intros _; by right
              | intros [(z' & Hz & _) | [_ Hd]]; congruence]).
  - destruct (Z.ltb_spec z n); simpl.
    + split; [intros _; left; eauto | done].
    + split; [discriminate |].
      intros [(z' & Hz & Hlt) | [Hn _]]; [| discriminate].
      injection Hz as ->. lia.
Qed.

Lemma activate_version_hard self w tb new_version deleted_at :
  hard_delete self = true →
  tables w !! full_table_name self = Some tb →
  let name := full_table_name self in
  let vcol := version_column_name self in
  let ddl := if bool_decide (vcol ∈ columns tb) then [] else [AddColumn name vcol] in
  let cols := if bool_decide (vcol ∈ columns tb) then columns tb
              else (columns tb ++ [vcol])%list in
  activate_version self new_version deleted_at w =
    (Return (),
     World (<[name := delete_stale vcol new_version (Table cols (rows tb))]> (tables w))
           (log w ++ ddl ++ [DeleteStale name vcol new_version]) (schemas w)).
Proof.
  intros Hhard Htb. simpl.
  unfold activate_version, mbind, M_bind, table_exists, column_exists.
  rewrite Htb, Hhard.
  rewrite bool_decide_eq_true_2 by eauto. cbn -[execute]. rewrite Htb.
  destruct (bool_decide (version_column_name self ∈ columns tb)) eqn:Hcol; cbn -[execute].
  - erewrite execute_ok; [reflexivity |]. simpl. rewrite Htb. simpl.
    rewrite Hcol. by destruct tb.
  - unfold prepare_column. erewrite execute_ok by (simpl; rewrite Htb; reflexivity).
    erewrite execute_ok.
    + simpl. by rewrite <- app_assoc.
    + simpl. rewrite lookup_insert_eq. simpl.
      rewrite bool_decide_eq_true_2 by set_solver.
      by rewrite insert_insert_eq.
Qed.

(** C7.  When the destination table of the stream does not exist,
    [activate_version] returns normally and leaves the world as it was:
    the tables are unchanged and no statement, DDL or DML, is added to the
    log. *)
Theorem activate_version_missing_table self new_version deleted_at w :
  tables w !! full_table_name self = None →
  activate_version self new_version deleted_at w = (Return (), w).
Proof.
  intros Hnone. unfold activate_version, mbind, M_bind, table_exists.
  rewrite Hnone. rewrite bool_decide_eq_false_2; [done |].
  intros [? ?]; discriminate.
Qed.

Lemma activate_version_missing_table_witness :
  tables (World ∅ [] ∅) !! full_table_name (users_sink false) = None ∧
  activate_version (users_sink false) 7 (instant "2024-01-01T00:00:00+00:00")
    (World ∅ [] ∅) = (Return (), World ∅ [] ∅).
Proof.
  split; [reflexivity |].
  apply (activate_version_missing_table (users_sink false) 7 _ (World ∅ [] ∅)).
  reflexivity.
Defined.

(** C6.  In hard-delete mode, on an existing destination table,
    [activate_version] returns normally; the rows left in the table are
    exactly the rows that were there whose version is neither NULL nor an
    integer at most the watermark, in their order; no other table changes;
    and the statements issued are at most one DDL statement (adding the
    version column when it was missing) followed by one DELETE. *)
Theorem hard_delete_activation self w tb new_version deleted_at :
  hard_delete self = true →
  tables w !! full_table_name self = Some tb →
  ∃ w' tb' ddl,
    activate_version self new_version deleted_at w = (Return (), w') ∧
    tables w' !! full_table_name self = Some tb' ∧
    rows tb' = filter (λ r, ¬ stale_or_null (version_column_name self) new_version r)
                      (rows tb) ∧
    (∀ t, t ≠ full_table_name self → tables w' !! t = tables w !! t) ∧
    log w' = (log w ++ ddl ++
              [DeleteStale (full_table_name self) (version_column_name self) new_version])%list ∧
    Forall (λ s, is_ddl s = true) ddl.
Proof.
  intros Hhard Htb.
  eexists _, _, _. split; [by apply activate_version_hard |].
  simpl. split; [apply lookup_insert_eq |].
  split; [by rewrite delete_stale_rows |].
  split; [intros t Ht; by rewrite lookup_insert_ne |].
  split; [reflexivity |].
  case_bool_decide; repeat constructor.
Qed.

Lemma hard_delete_activation_witness :
  ∃ w' tb',
    activate_version (users_sink true) 2 (instant "2024-01-01T00:00:00+00:00")
      users_1_2_3_null = (Return (), w') ∧
    tables w' !! "users" = Some tb' ∧
    rows tb' = [user 3 (VInt 3)] ∧
    log w' = [DeleteStale "users" "_sdc_table_version" 2].
Proof.
  destruct (hard_delete_activation (users_sink true) users_1_2_3_null
              (Table ["id"; "name"; "_sdc_table_version"]
                     [user 1 (VInt 1); user 2 (VInt 2); user 3 (VInt 3); user 4 VNone])
              2 (instant "2024-01-01T00:00:00+00:00") eq_refl eq_refl)
    as (w' & tb' & ddl & Hrun & Htb' & Hrows & _ & Hlog & _).
  exists w', tb'. split; [exact Hrun |]. split; [exact Htb' |].
  split; [exact Hrows |].
  vm_compute in Hrun. injection Hrun as <-. reflexivity.
Defined.

(** * Batch preparation: the dedup branch *)

Section ordered_dict.
Context {V : Type}.
Implicit Types (d : list (string * V)) (k : string) (v : V).

Lemma dict_set_keys k v d :
  (dict_set k v d).*1 = if decide (k ∈ d.*1) then d.*1 else (d.*1 ++ [k])%list.
Proof.
  induction d as [| [k' v'] d IH].
  - rewrite decide_False by apply not_elem_of_nil. done.
  - cbn [dict_set]. rewrite !fmap_cons. cbn [fst].
    destruct (decide (k = k')) as [-> | Hne]; rewrite ?fmap_cons; cbn [fst].
    + rewrite decide_True by left. done.
    + rewrite IH. destruct (decide (k ∈ d.*1)) as [Hin | Hnin].
      * rewrite decide_True by (by right). done.
      * rewrite decide_False; [done |].
        intros [? | ?]%elem_of_cons; done.
Qed.

Lemma dict_set_NoDup k v d : NoDup d.*1 → NoDup (dict_set k v d).*1.
Proof.
  intros Hnd. rewrite dict_set_keys. case_decide; [done |].
  apply NoDup_app. split; [done |]. split; [| apply NoDup_singleton].
  intros x Hx ->%list_elem_of_singleton. done.
Qed.

Lemma dict_set_elem_of k v d k' v' :
  NoDup d.*1 →
  (k', v') ∈ dict_set k v d ↔ (k' = k ∧ v' = v) ∨ (k' ≠ k ∧ (k', v') ∈ d).
Proof.
  induction d as [| [k0 v0] d IH]; simpl; intros Hnd.
  - rewrite list_elem_of_singleton. split.
    + intros [= -> ->]. by left.
    + intros [[-> ->] | [_ Hin]]; [done | by apply elem_of_nil in Hin].
  - apply NoDup_cons in Hnd as [Hk0 Hnd].
    destruct (decide (k = k0)) as [-> | Hne].
    + rewrite !elem_of_cons. split.
      * intros [[= -> ->] | Hin]; [by left |].
        right. split; [| by right].
        intros ->. apply Hk0. apply list_elem_of_fmap. by exists (k0, v').
      * intros [[-> ->] | [Hne [[= -> ->] | Hin]]]; [by left | done | by right].
    + rewrite !elem_of_cons, IH by done. split.
      * intros [[= -> ->] | [[-> ->] | [Hne' Hin]]].
        -- right. split; [done | by left].
        -- by left.
        -- right. split; [done | by right].
      * intros [[-> ->] | [Hne' [[= -> ->] | Hin]]].
        -- right. by left.
        -- by left.
        -- right. right. done.
Qed.
End ordered_dict.

Section dedup.
Context (cols primary_keys : list string).
Implicit Types (r : record) (records : list record) (d : list (string * record)).

Lemma primary_key_parts_present r :
  has_keys primary_keys r →
  primary_key_parts primary_keys r =
    Return (map (λ k, py_str (cell r k)) primary_keys).
Proof.
  unfold has_keys. induction 1 as [| k ks [v Hv] _ IH]; simpl; [done |].
  rewrite Hv, IH. unfold cell. by rewrite Hv.
Qed.

Lemma primary_key_value_present r :
  has_keys primary_keys r →
  primary_key_value primary_keys r = Return (composite_key primary_keys r).
Proof.
  intros Hk. unfold primary_key_value. by rewrite primary_key_parts_present.
Qed.

Lemma primary_key_parts_missing r :
  ¬ has_keys primary_keys r →
  ∃ k, k ∈ primary_keys ∧ r !! k = None ∧
       primary_key_parts primary_keys r = Raised (KeyError k).
Proof.
  unfold has_keys. induction primary_keys as [| k ks IH]; simpl; intros Hk.
  - destruct Hk. constructor.
  - destruct (r !! k) as [v |] eqn:Hv.
    + destruct IH as (k' & Hin & Hnone & Hrun).
      { intros Hall. apply Hk. constructor; eauto. }
      exists k'. split; [by right |]. split; [done |]. by rewrite Hrun.
    + exists k. split; [by left |]. done.
Qed.

Lemma primary_key_value_missing r :
  ¬ has_keys primary_keys r →
  ∃ k, k ∈ primary_keys ∧ r !! k = None ∧
       primary_key_value primary_keys r = Raised (KeyError k).
Proof.
  intros (k & Hin & Hnone & Hrun)%primary_key_parts_missing.
  exists k. unfold primary_key_value. by rewrite Hrun.
Qed.

Lemma dedup_loop_ok records d :
  Forall (has_keys primary_keys) records →
  dedup_loop cols primary_keys records d =
    Return (dedup_fold cols primary_keys records d).
Proof.
  intros Hall. revert d. induction Hall as [| r records Hr _ IH]; intros d; [done |].
  simpl. rewrite primary_key_value_present by done. simpl. apply IH.
Qed.

Lemma dedup_loop_raises records d :
  ¬ Forall (has_keys primary_keys) records →
  ∃ r k, r ∈ records ∧ k ∈ primary_keys ∧ r !! k = None ∧
         dedup_loop cols primary_keys records d = Raised (KeyError k).
Proof.
  revert d. induction records as [| r records IH]; intros d Hnot.
  - destruct Hnot. constructor.
  - simpl. destruct (decide (has_keys primary_keys r)) as [Hr | Hr].
    + rewrite primary_key_value_present by done. simpl.
      destruct (IH (dict_set (composite_key primary_keys r) (project cols r) d))
        as (r' & k & Hin & Hk & Hnone & Hrun).
      { intros Hall. apply Hnot. by constructor. }
      exists r', k. split; [by right |]. done.
    + destruct (primary_key_value_missing r Hr) as (k & Hk & Hnone & Hrun).
      exists r, k. split; [by left |]. rewrite Hrun. done.
Qed.

Lemma dedup_fold_spec records d :
  NoDup d.*1 →
  NoDup (dedup_fold cols primary_keys records d).*1 ∧
  ∀ k v, (k, v) ∈ dedup_fold cols primary_keys records d ↔
    (∃ r, last_with_key primary_keys k records = Some r ∧ v = project cols r)
    ∨ (last_with_key primary_keys k records = None ∧ (k, v) ∈ d).
Proof.
  unfold last_with_key.
  revert d. induction records as [| r records IH]; intros d Hnd.
  - split; [done |]. intros k v. simpl. split; [by right |].
    intros [(r & Hr & _) | [_ Hin]]; [discriminate | done].
  - unfold dedup_fold. simpl. fold (dedup_fold cols primary_keys).
    pose proof (dict_set_NoDup (composite_key primary_keys r) (project cols r) d Hnd)
      as Hnd'.
    destruct (IH _ Hnd') as [IHnd IHin]. split; [done |].
    intros k v. rewrite IHin. rewrite dict_set_elem_of by done.
    rewrite filter_cons. case_decide as Hk.
    + rewrite last_cons.
      destruct (last (filter (λ r0, composite_key primary_keys r0 = k) records))
        as [r' |] eqn:Hlast.
      * split.
        -- intros [(r0 & [= <-] & ->) | [[=] _]]. left. eauto.
        -- intros [(r0 & [= <-] & ->) | [[=] _]]. left. eauto.
      * split.
        -- intros [(r0 & [=] & _) | [_ [[_ ->] | [Hne _]]]]; [| done].
           left. eauto.
        -- intros [(r0 & [= <-] & ->) | [[=] _]]. right. split; [done |]. by left.
    + split.
      * intros [? | [Hl [[-> _] | [_ Hin]]]]; [by left | done | by right].
      * intros [? | [Hl Hin]]; [by left |]. right. split; [done |].
        right. split; [| done]. congruence.
Qed.

Lemma project_lookup_gen r (acc : record) c :
  foldl (λ insert_record c, <[c := cell r c]> insert_record) acc cols !! c =
  if decide (c ∈ cols) then Some (cell r c) else acc !! c.
Proof.
  revert acc. induction cols as [| c' cs IH]; intros acc; cbn [foldl].
  - by rewrite decide_False by apply not_elem_of_nil.
  - rewrite IH. destruct (decide (c ∈ cs)) as [Hin | Hnin].
    + by rewrite decide_True by (by right).
    + destruct (decide (c = c')) as [-> | Hne].
      * rewrite decide_True by left. by rewrite lookup_insert_eq.
      * rewrite decide_False by (intros [? | ?]%elem_of_cons; done).
        by rewrite lookup_insert_ne.
Qed.

Lemma project_lookup r c :
  project cols r !! c = if decide (c ∈ cols) then Some (cell r c) else None.
Proof. unfold project. by rewrite project_lookup_gen, lookup_empty. Qed.
End dedup.

Lemma str_app_cons x (a b : string) : String x a +:+ b = String x (a +:+ b).
Proof. reflexivity. Qed.

Lemma str_app_assoc (a b c : string) : (a +:+ b) +:+ c = a +:+ (b +:+ c).
Proof. induction a as [| x a IH]; [done |]. rewrite !str_app_cons. by f_equal. Qed.

Lemma str_app_nil_r (a : string) : a +:+ "" = a.
Proof. induction a as [| x a IH]; [done |]. rewrite str_app_cons. by f_equal. Qed.

Lemma join_foldl_acc sep (acc : string) (l : list string) :
  foldl (λ acc y, acc +:+ sep +:+ y) acc l =
  acc +:+ foldr (λ y rest, sep +:+ y +:+ rest) "" l.
Proof.
  revert acc. induction l as [| y l IH]; intros acc; simpl.
  - by rewrite str_app_nil_r.
  - rewrite IH. by rewrite !str_app_assoc.
Qed.

(** With the empty separator [join] is plain concatenation. *)
Lemma join_empty (l : list string) : join "" l = foldr String.append "" l.
Proof.
  destruct l as [| x l]; [done |]. unfold join. rewrite join_foldl_acc. simpl.
  f_equal.
Qed.

Lemma join_empty_app (l1 l2 : list string) :
  join "" (l1 ++ l2) = join "" l1 +:+ join "" l2.
Proof.
  rewrite !join_empty. induction l1 as [| x l1 IH]; simpl; [done |].
  by rewrite IH, str_app_assoc.
Qed.

Lemma composite_key_app ks1 ks2 r :
  composite_key (ks1 ++ ks2) r = composite_key ks1 r +:+ composite_key ks2 r.
Proof. unfold composite_key. by rewrite map_app, join_empty_app. Qed.

(** What the dedup branch returns on a batch in which no record lacks a
    key field: one row per composite key that occurs, each the projection
    of the last record with that composite key. *)
Lemma prepare_records_dedup t cols primary_keys records :
  Forall (has_keys primary_keys) records →
  ∃ d, prepare_records false t cols records primary_keys = Return d.*2 ∧
       NoDup d.*1 ∧
       ∀ k v, (k, v) ∈ d ↔
         ∃ r, last_with_key primary_keys k records = Some r ∧ v = project cols r.
Proof.
  intros Hall. exists (dedup_fold cols primary_keys records []).
  unfold prepare_records. simpl. rewrite dedup_loop_ok by done.
  destruct (dedup_fold_spec cols primary_keys records []) as [Hnd Hin];
    [apply NoDup_nil_2 |].
  split; [done |]. split; [done |].
  intros k v. rewrite Hin. split.
  - intros [? | [_ Hnil]]; [done | by apply elem_of_nil in Hnil].
  - intros ?. by left.
Qed.

Lemma prepare_records_missing t cols primary_keys records :
  ¬ Forall (has_keys primary_keys) records →
  ∃ r k, r ∈ records ∧ k ∈ primary_keys ∧ r !! k = None ∧
    prepare_records false t cols records primary_keys =
      Raised (RuntimeError (missing_key_msg t primary_keys) (KeyError k)).
Proof.
  intros Hnot.
  destruct (dedup_loop_raises cols primary_keys records [] Hnot)
    as (r & k & Hr & Hk & Hnone & Hrun).
  exists r, k. unfold prepare_records. simpl. by rewrite Hrun.
Qed.

Lemma has_keys_all primary_keys records :
  Forall (has_keys primary_keys) records ↔
  ¬ ∃ r k, r ∈ records ∧ k ∈ primary_keys ∧ r !! k = None.
Proof.
  split.
  - intros Hall (r & k & Hr & Hk & Hnone).
    rewrite Forall_forall in Hall. specialize (Hall r Hr).
    unfold has_keys in Hall. rewrite Forall_forall in Hall.
    destruct (Hall k Hk) as [v Hv]. congruence.
  - intros Hno. apply Forall_forall. intros r Hr. apply Forall_forall. intros k Hk.
    destruct (r !! k) eqn:Hv; [eauto |]. destruct Hno. eauto 6.
Qed.

(** C2.  Two records whose primary-key tuples differ, (1, 23) and (12, 3),
    are collapsed by the dedup branch into one prepared row, the second:
    both tuples concatenate to the composite key 123. *)
Theorem dedup_collapses_distinct_tuples :
  let r1 := row [("a", VInt 1); ("b", VInt 23)] in
  let r2 := row [("a", VInt 12); ("b", VInt 3)] in
  pk_tuple ["a"; "b"] r1 ≠ pk_tuple ["a"; "b"] r2 ∧
  composite_key ["a"; "b"] r1 = "123" ∧
  composite_key ["a"; "b"] r2 = "123" ∧
  prepare_records false (Handle "staging" None ["a"; "b"]) ["a"; "b"] [r1; r2] ["a"; "b"]
    = Return [project ["a"; "b"] r2].
Proof.
  simpl. split; [by vm_compute |]. by vm_compute.
Qed.


Lemma missing_key_msg_contains t primary_keys :
  str_contains (h_name t) (missing_key_msg t primary_keys) ∧
  str_contains (py_str (from_option VStr VNone (h_schema t)))
               (missing_key_msg t primary_keys) ∧
  str_contains (py_repr (VList (map VStr primary_keys)))
               (missing_key_msg t primary_keys).
Proof.
  unfold missing_key_msg, str_contains.
  generalize (py_str (from_option VStr VNone (h_schema t))) as schema.
  generalize (py_repr (VList (map VStr primary_keys))) as pks.
  generalize (h_name t) as name.
  intros name pks schema. split; [| split].
  - exists "Primary key not found in record. full_table_name: ",
           (". " +:+ "schema: " +:+ schema +:+ ".  primary_keys: " +:+ pks +:+ ".").
    reflexivity.
  - exists ("Primary key not found in record. full_table_name: " +:+ name +:+ ". "
            +:+ "schema: "),
           (".  primary_keys: " +:+ pks +:+ ".").
    by rewrite !str_app_assoc.
  - exists ("Primary key not found in record. full_table_name: " +:+ name +:+ ". "
            +:+ "schema: " +:+ schema +:+ ".  primary_keys: "), ".".
    by rewrite !str_app_assoc.
Qed.

(** C5.  In the dedup mode, when some record of the batch has no entry
    for some declared primary-key field, [bulk_insert_records] raises the
    error built at the [except KeyError] clause, whose message contains
    the table name, the table's schema and the primary-key list; the
    world is the one it was called in, so no insert was issued and no row
    was added. *)
Theorem missing_primary_key_raises self t schema records primary_keys w :
  _append_only self = Some false →
  (∃ r k, r ∈ records ∧ k ∈ primary_keys ∧ r !! k = None) →
  ∃ msg k,
    bulk_insert_records self t schema records primary_keys w =
      (Raised (RuntimeError msg (KeyError k)), w) ∧
    k ∈ primary_keys ∧
    str_contains (h_name t) msg ∧
    str_contains (py_str (from_option VStr VNone (h_schema t))) msg ∧
    str_contains (py_repr (VList (map VStr primary_keys))) msg.
Proof.
  intros Hmode Hmissing.
  destruct (prepare_records_missing t (column_representation schema) primary_keys records)
    as (r & k & Hr & Hk & Hnone & Hrun).
  { rewrite has_keys_all. tauto. }
  exists (missing_key_msg t primary_keys), k. split.
  - unfold bulk_insert_records, append_only, mbind, M_bind, mret, M_ret, lift.
    rewrite Hmode, Hrun. reflexivity.
  - split; [done |]. apply missing_key_msg_contains.
Qed.

Lemma missing_primary_key_raises_witness :
  ∃ msg k,
    bulk_insert_records (users_sink false) (Handle "staging" (Some "melty") ["id"; "name"])
      [("id", VNone); ("name", VNone)]
      [row [("id", VInt 1); ("name", VStr "ann")]; row [("name", VStr "bob")]]
      ["id"] (World ∅ [] ∅) =
      (Raised (RuntimeError msg (KeyError k)), World ∅ [] ∅) ∧
    k ∈ ["id"] ∧
    str_contains "staging" msg ∧
    str_contains "melty" msg ∧
    str_contains (py_repr (VList (map VStr ["id"]))) msg.
Proof.
  apply (missing_primary_key_raises (users_sink false)
           (Handle "staging" (Some "melty") ["id"; "name"])).
  - reflexivity.
  - exists (row [("name", VStr "bob")]), "id".
    split; [right; left |]. split; [left | reflexivity].
Defined.

Example missing_primary_key_message :
  prepare_records false (Handle "staging" (Some "melty") ["id"; "name"]) ["id"; "name"]
    [row [("id", VInt 1); ("name", VStr "ann")]; row [("name", VStr "bob")]] ["id"] =
  Raised (RuntimeError
    "Primary key not found in record. full_table_name: staging. schema: melty.  primary_keys: ['id']."
    (KeyError "id")).
Proof. vm_compute. reflexivity. Qed.

(** C10.  In the dedup mode the batch preparation raises exactly when
    some record has no entry at all for some primary-key field.  A field
    that is present with the value [None] raises nothing: it enters the
    composite key as the text None, and the records of the batch are then
    grouped by composite key, one prepared row per key, the projection of
    the last record with that key. *)
Theorem none_key_value_is_deduplicated t cols primary_keys records :
  ((∃ e, prepare_records false t cols records primary_keys = Raised e) ↔
   (∃ r k, r ∈ records ∧ k ∈ primary_keys ∧ r !! k = None)) ∧
  (∀ ks1 k ks2 r, r !! k = Some VNone →
     composite_key (ks1 ++ k :: ks2) r =
     composite_key ks1 r +:+ "None" +:+ composite_key ks2 r) ∧
  ((∀ r k, r ∈ records → k ∈ primary_keys → is_Some (r !! k)) →
   ∃ d, prepare_records false t cols records primary_keys = Return d.*2 ∧
        NoDup d.*1 ∧
        ∀ k v, (k, v) ∈ d ↔
          ∃ r, last_with_key primary_keys k records = Some r ∧ v = project cols r).
Proof.
  split; [| split].
  - split.
    + intros [e He]. destruct (decide (Forall (has_keys primary_keys) records)) as [Hall | Hnot].
      * destruct (prepare_records_dedup t cols primary_keys records Hall) as (d & Hd & _).
        congruence.
      * destruct (prepare_records_missing t cols primary_keys records Hnot)
          as (r & k & ? & ? & ? & _). eauto 6.
    + intros Hmissing.
      destruct (prepare_records_missing t cols primary_keys records)
        as (r & k & _ & _ & _ & Hrun); [rewrite has_keys_all; tauto |]. eauto.
  - intros ks1 k ks2 r Hnone.
    change (k :: ks2) with ([k] ++ ks2)%list. rewrite !composite_key_app.
    f_equal. f_equal. unfold composite_key, cell. simpl. by rewrite Hnone.
  - intros Hall. apply prepare_records_dedup.
    apply has_keys_all. intros (r & k & Hr & Hk & Hnone).
    destruct (Hall r k Hr Hk). congruence.
Qed.


Lemma none_key_value_is_deduplicated_witness :
  let r1 := row [("id", VNone); ("name", VStr "ann")] in
  let r2 := row [("id", VNone); ("name", VStr "bob")] in
  composite_key ([] ++ "id" :: []) r1 =
    composite_key [] r1 +:+ "None" +:+ composite_key [] r1 ∧
  ∃ d, prepare_records false (Handle "staging" None ["id"; "name"]) ["id"; "name"]
         [r1; r2] ["id"] = Return d.*2 ∧
       NoDup d.*1 ∧
       ∀ k v, (k, v) ∈ d ↔
         ∃ r, last_with_key ["id"] k [r1; r2] = Some r ∧ v = project ["id"; "name"] r.
Proof.
  intros r1 r2.
  destruct (none_key_value_is_deduplicated (Handle "staging" None ["id"; "name"])
              ["id"; "name"] ["id"] [r1; r2]) as (_ & Hnone & Hdedup).
  split.
  - apply (Hnone [] "id" [] r1). reflexivity.
  - apply Hdedup. intros r k Hr Hk.
    apply list_elem_of_singleton in Hk as ->.
    apply elem_of_cons in Hr as [-> | Hr]; [by eexists |].
    apply list_elem_of_singleton in Hr as ->. by eexists.
Defined.

Example none_keys_collapse :
  let r1 := row [("id", VNone); ("name", VStr "ann")] in
  let r2 := row [("id", VNone); ("name", VStr "bob")] in
  composite_key ["id"] r1 = "None" ∧
  prepare_records false (Handle "staging" None ["id"; "name"]) ["id"; "name"]
    [r1; r2] ["id"] = Return [project ["id"; "name"] r2].
Proof. split; vm_compute; reflexivity. Qed.

(** * Soft delete *)

Lemma mark_deleted_rows version_col deleted_col deletedate n t r :
  r ∈ rows t →
  (marked version_col deleted_col n r →
     <[deleted_col := deletedate]> r ∈ rows (mark_deleted version_col deleted_col deletedate n t)) ∧
  (¬ marked version_col deleted_col n r →
     r ∈ rows (mark_deleted version_col deleted_col deletedate n t)).
Proof.
  intros Hr. unfold mark_deleted. simpl. split; intros Hm.
  - apply list_elem_of_fmap. exists r. split; [| done].
    apply mark_where_holds in Hm. by rewrite Hm.
  - apply list_elem_of_fmap. exists r. split; [| done].
    destruct (holds _) eqn:Hh; [| done]. destruct Hm. by apply mark_where_holds.
Qed.

(** A row with an integer version below the watermark is written whatever
    its deletion timestamp already is. *)
Lemma mark_deleted_refreshes version_col deleted_col deletedate n t r z :
  r ∈ rows t → cell r version_col = VInt z → z < n →
  <[deleted_col := deletedate]> r ∈
    rows (mark_deleted version_col deleted_col deletedate n t).
Proof.
  intros Hr Hz Hlt.
  destruct (mark_deleted_rows version_col deleted_col deletedate n t r Hr) as [Hm _].
  apply Hm. left. eauto.
Qed.

(** C1.  Rows with versions 1, 2 and NULL, watermark 2.  The first
    soft-delete run stamps the rows of version 1 and NULL.  A second run
    with the same watermark, at a later instant, overwrites the stamp of
    the row of version 1 with the later instant; only the row whose
    version is NULL keeps its first stamp. *)
Theorem soft_delete_refreshes_timestamp :
  let first := instant "2024-01-01T00:00:00+00:00" in
  let later := instant "2024-02-01T00:00:00+00:00" in
  ∃ w1 w2,
    activate_version (users_sink false) 2 first users_1_2_null = (Return (), w1) ∧
    rows <$> tables w1 !! "users" =
      Some [<["_sdc_deleted_at" := first]> (user 1 (VInt 1));
            user 2 (VInt 2);
            <["_sdc_deleted_at" := first]> (user 3 VNone)] ∧
    activate_version (users_sink false) 2 later w1 = (Return (), w2) ∧
    rows <$> tables w2 !! "users" =
      Some [<["_sdc_deleted_at" := later]> (user 1 (VInt 1));
            user 2 (VInt 2);
            <["_sdc_deleted_at" := first]> (user 3 VNone)] ∧
    first ≠ later.
Proof.
  intros first later.
  eexists _, _. split; [vm_compute; reflexivity |].
  split; [vm_compute; reflexivity |].
  split; [vm_compute; reflexivity |].
  split; [vm_compute; reflexivity | discriminate].
Qed.

(** * Batch preparation: the append-only branch *)

Lemma Return_inj {A : Type} (a b : A) : Return a = Return b → a = b.
Proof. by intros [= ->]. Qed.

Lemma sanitize_entry_no_decimal v : has_decimal (sanitize_entry v) = false.
Proof.
  induction v as [| b | z | s | d | l IH | d IH | s r] using value_ind'; try done.
  - simpl. induction IH as [| x l Hx _ IHl]; [done |]. simpl. by rewrite Hx, IHl.
  - simpl. induction IH as [| [k x] d Hx _ IHd]; [done |]. simpl in *. by rewrite Hx, IHd.
Qed.

Lemma sanitize_entry_id v : has_decimal v = false → sanitize_entry v = v.
Proof.
  induction v as [| b | z | s | d | l IH | d IH | s r] using value_ind'; try done.
  - simpl. intros Hl. f_equal.
    induction IH as [| x l Hx _ IHl]; [done |]. simpl in *.
    apply orb_false_iff in Hl as [H1 H2]. by rewrite Hx, IHl.
  - simpl. intros Hd. f_equal.
    induction IH as [| [k x] d Hx _ IHd]; [done |]. simpl in *.
    apply orb_false_iff in Hd as [H1 H2]. by rewrite Hx, IHd.
Qed.

Lemma sanitize_entry_other v :
  is_dict_list_decimal v = false → sanitize_entry v = v.
Proof. by destruct v. Qed.

Lemma append_row_lookup_gen cols r (acc : record) c :
  foldl (λ insert_record c,
           if is_dict_list_decimal (cell r c)
           then <[c := sanitize_entry (cell r c)]> insert_record
           else <[c := cell r c]> insert_record) acc cols !! c =
  if decide (c ∈ cols) then Some (sanitize_entry (cell r c)) else acc !! c.
Proof.
  revert acc. induction cols as [| c' cs IH]; intros acc; cbn [foldl].
  - by rewrite decide_False by apply not_elem_of_nil.
  - rewrite IH. destruct (decide (c ∈ cs)) as [Hin | Hnin].
    + by rewrite decide_True by (by right).
    + destruct (decide (c = c')) as [-> | Hne].
      * rewrite decide_True by left.
        destruct (is_dict_list_decimal (cell r c')) eqn:Hk; rewrite lookup_insert_eq;
          [done |]. by rewrite sanitize_entry_other.
      * rewrite decide_False by (intros [? | ?]%elem_of_cons; done).
        by destruct (is_dict_list_decimal (cell r c')); rewrite lookup_insert_ne.
Qed.

Lemma append_row_lookup cols r c :
  append_row cols r !! c =
  if decide (c ∈ cols) then Some (sanitize_entry (cell r c)) else None.
Proof. unfold append_row. by rewrite append_row_lookup_gen, lookup_empty. Qed.

(** C9.  In append-only mode the batch preparation returns one row per
    input record, in arrival order.  Each row has exactly the declared
    columns; a column holds the record's value for that field ([None]
    when the record has none), sanitized when it is a dict, a list or a
    Decimal and unchanged otherwise.  Sanitizing turns a Decimal into its
    decimal string, maps over the items of lists and the values of dicts,
    leaves no Decimal at any depth, and changes nothing in a value that
    holds no Decimal. *)
Theorem append_only_passthrough t cols records primary_keys :
  (∃ out,
     prepare_records true t cols records primary_keys = Return out ∧
     length out = length records ∧
     ∀ i r, records !! i = Some r →
       ∃ o, out !! i = Some o ∧
            (∀ c, is_Some (o !! c) ↔ c ∈ cols) ∧
            ∀ c, c ∈ cols →
              (is_dict_list_decimal (cell r c) = true →
                 o !! c = Some (sanitize_entry (cell r c)) ∧
                 has_decimal (cell o c) = false) ∧
              (is_dict_list_decimal (cell r c) = false → o !! c = Some (cell r c))) ∧
  (∀ d, sanitize_entry (VDecimal d) = VStr d) ∧
  (∀ l, sanitize_entry (VList l) = VList (map sanitize_entry l)) ∧
  (∀ d, sanitize_entry (VDict d) = VDict (map (λ kv, (kv.1, sanitize_entry kv.2)) d)) ∧
  (∀ v, has_decimal (sanitize_entry v) = false) ∧
  (∀ v, has_decimal v = false → sanitize_entry v = v).
Proof.
  split; [| repeat (split; [done |]);
            split; [apply sanitize_entry_no_decimal | apply sanitize_entry_id]].
  exists (map (append_row cols) records). split; [done |].
  split; [by rewrite length_map |].
  intros i r Hr. exists (append_row cols r). split.
  { change (map (append_row cols) records) with (append_row cols <$> records).
    by rewrite list_lookup_fmap, Hr. }
  split.
  - intros c. rewrite append_row_lookup. case_decide; split; try done.
  - intros c Hc. split.
    + intros _. unfold cell. rewrite append_row_lookup, decide_True by done.
      split; [done |]. apply sanitize_entry_no_decimal.
    + intros Hk. rewrite append_row_lookup, decide_True by done.
      by rewrite sanitize_entry_other.
Qed.

Lemma append_only_passthrough_witness :
  let r1 := row [("id", VInt 1); ("price", VDecimal "9.90");
                 ("tags", VList [VStr "a"; VDecimal "1.5"])] in
  let r2 := row [("id", VInt 2)] in
  ∃ out,
    prepare_records true (Handle "staging" None ["id"; "price"; "tags"])
      ["id"; "price"; "tags"] [r1; r2] [] = Return out ∧
    out = [row [("id", VInt 1); ("price", VStr "9.90");
                ("tags", VList [VStr "a"; VStr "1.5"])];
           row [("id", VInt 2); ("price", VNone); ("tags", VNone)]].
Proof.
  intros r1 r2.
  destruct (append_only_passthrough (Handle "staging" None ["id"; "price"; "tags"])
              ["id"; "price"; "tags"] [r1; r2] []) as [(out & Hrun & _) _].
  exists out. split; [exact Hrun |].
  apply (Return_inj out). rewrite <- Hrun. vm_compute. reflexivity.
Defined.

(** * The statements a method issues *)

Section logs.
Context (P : stmt → Prop).





End logs.







Lemma prepare_table_temp name cols pks w :
  prepare_table name cols pks true w =
    (Return (Handle name None cols),
     World (<[name := Table cols []]> (tables w))
           (log w ++ [CreateTable name cols pks true]) (schemas w)).
Proof. unfold prepare_table. by destruct (tables w !! name). Qed.

Lemma prepare_table_main_run name cols pks w :
  let dest := default (Table cols []) (tables w !! name) in
  ∃ w1,
    prepare_table name cols pks false w = (Return (Handle name None (columns dest)), w1) ∧
    tables w1 = <[name := dest]> (tables w) ∧
    schemas w1 = schemas w ∧
    log w1 = (log w ++ match tables w !! name with
                       | Some _ => []
                       | None => [CreateTable name cols pks false]
                       end)%list.
Proof.
  cbn zeta. unfold prepare_table. destruct (tables w !! name) as [tb |] eqn:Htb; cbn.
  - exists w. split; [done |]. split; [by rewrite insert_id |].
    split; [done | by rewrite app_nil_r].
  - eexists. split; [reflexivity |]. done.
Qed.






(** * The merge *)

Section merge.
Context (join_keys names cols : list string).
Implicit Types (s d r : record) (from_rows to_rows : list record).

Lemma holds_sql_and a b : holds (sql_and a b) = true ↔ holds a = true ∧ holds b = true.
Proof. destruct a as [[|] |], b as [[|] |]; simpl; intuition congruence. Qed.

Lemma holds_sql_eq (a b : value) : holds (sql_eq a b) = true ↔ a ≠ VNone ∧ a = b.
Proof.
  unfold sql_eq.
  destruct a, b; simpl; try (split; [discriminate | intros [? ?]; congruence]);
    (case_bool_decide; simpl; split; [intros _; split; [discriminate | done]
                                     | done | discriminate | intros [? ?]; done]).
Qed.

Lemma matches_iff s d :
  matches join_keys s d ↔
  Forall (λ k, cell s k ≠ VNone ∧ cell s k = cell d k) join_keys.
Proof.
  unfold matches, join_condition, sql_and_list.
  induction join_keys as [| k ks IH]; simpl.
  - split; [constructor | done].
  - rewrite holds_sql_and, holds_sql_eq, IH, Forall_cons. done.
Qed.

Lemma matches_ext s d d' :
  (∀ k, k ∈ join_keys → cell d k = cell d' k) →
  join_condition join_keys s d = join_condition join_keys s d'.
Proof.
  unfold join_condition. intros Heq. f_equal.
  apply map_ext_in. intros k Hk. rewrite Heq; [done |].
  by apply list_elem_of_In.
Qed.

Lemma where_condition_none : holds (where_condition join_keys None) = true.
Proof.
  unfold where_condition, sql_and_list.
  induction join_keys as [| k ks IH]; [done |]. cbn [map foldr].
  apply holds_sql_and. split; [reflexivity | done].
Qed.

Lemma where_condition_matched s d :
  join_keys ≠ [] → matches join_keys s d →
  holds (where_condition join_keys (Some d)) = false.
Proof.
  intros Hne Hm. apply matches_iff in Hm.
  destruct join_keys as [| k ks]; [done |].
  apply Forall_cons in Hm as [[Hnn Heq] _].
  unfold where_condition, sql_and_list. cbn [map foldr to_cell].
  unfold sql_is_null at 1. rewrite bool_decide_eq_false_2 by congruence.
  by destruct (foldr _ _ _) as [[|] |].
Qed.

Lemma select_columns_lookup r c :
  select_columns names r !! c =
  if decide (c ∈ names) then Some (cell r c) else None.
Proof.
  unfold select_columns. induction names as [| n ns IH].
  - rewrite decide_False by apply not_elem_of_nil. apply lookup_empty.
  - rewrite map_cons, list_to_map_cons.
    destruct (decide (c = n)) as [-> | Hne].
    + by rewrite lookup_insert_eq, decide_True by left.
    + rewrite lookup_insert_ne by done. rewrite IH.
      destruct (decide (c ∈ ns)).
      * by rewrite decide_True by (by right).
      * by rewrite decide_False by (intros [? | ?]%elem_of_cons; done).
Qed.

Lemma overwrite_lookup s d c :
  overwrite cols s d !! c = if decide (c ∈ cols) then Some (cell s c) else d !! c.
Proof.
  unfold overwrite. revert d. induction cols as [| c' cs IH]; intros d; cbn [foldl].
  - by rewrite decide_False by apply not_elem_of_nil.
  - rewrite IH. destruct (decide (c ∈ cs)) as [Hin | Hnin].
    + by rewrite decide_True by (by right).
    + destruct (decide (c = c')) as [-> | Hne].
      * rewrite decide_True by left. by rewrite lookup_insert_eq.
      * rewrite decide_False by (intros [? | ?]%elem_of_cons; done).
        by rewrite lookup_insert_ne.
Qed.

Lemma overwrite_cell s d c :
  cell (overwrite cols s d) c = if decide (c ∈ cols) then cell s c else cell d c.
Proof. unfold cell at 1. rewrite overwrite_lookup. by case_decide. Qed.

Lemma overwrite_idemp s d : overwrite cols s (overwrite cols s d) = overwrite cols s d.
Proof. apply map_eq. intros c. rewrite !overwrite_lookup. by case_decide. Qed.
End merge.

Lemma filter_none {A} (P : A → Prop) `{∀ x, Decision (P x)} (l : list A) :
  Forall (λ x, ¬ P x) l → filter P l = [].
Proof.
  induction 1 as [| x l Hx _ IH]; [done |]. by rewrite filter_cons_False.
Qed.

Section merge_rows.
Context (join_keys names cols : list string).
Implicit Types (s d r : record) (from_rows to_rows : list record).

Lemma filter_matches_nil s to_rows :
  filter (λ d, holds (join_condition join_keys s d) = true) to_rows = [] ↔
  unmatched join_keys to_rows s.
Proof.
  unfold unmatched, matches. split.
  - intros Hnil. apply Forall_forall. intros d Hd Hm.
    by apply (filter_nil_not_elem_of _ _ d Hnil Hm).
  - intros Hall. induction Hall as [| d ds Hd _ IH]; [done |].
    by rewrite filter_cons_False.
Qed.

(** The outer join filtered on destination-side NULLs selects the
    staging rows that no destination row matches. *)
Lemma insert_new_rows from_t to_t :
  join_keys ≠ [] →
  rows (insert_new join_keys names from_t to_t) =
  (rows to_t ++
   map (select_columns names)
       (filter (unmatched join_keys (rows to_t)) (rows from_t)))%list.
Proof.
  intros Hne. unfold insert_new. cbn [rows]. f_equal.
  unfold outerjoin. induction (rows from_t) as [| s from_rows IH]; [done |].
  cbn [mbind list_bind]. rewrite filter_app, map_app, IH. clear IH.
  destruct (filter (λ d, holds (join_condition join_keys s d) = true) (rows to_t))
    as [| d0 ds] eqn:Hf.
  - apply filter_matches_nil in Hf.
    rewrite (filter_cons_True (unmatched _ _)) by done.
    rewrite filter_cons_True by apply where_condition_none. done.
  - assert (¬ unmatched join_keys (rows to_t) s) as Hnot.
    { intros Hu. apply filter_matches_nil in Hu. congruence. }
    rewrite (filter_cons_False (unmatched _ _)) by done.
    assert (Forall (matches join_keys s) (d0 :: ds)) as Hall.
    { rewrite <- Hf. apply Forall_forall. intros d Hd.
      by apply list_elem_of_filter in Hd as [? _]. }
    clear Hf. induction Hall as [| d ds' Hd _ IH]; [done |].
    cbn [map]. rewrite filter_cons_False; [exact IH |].
    cbn [snd]. by rewrite (where_condition_matched join_keys s d).
Qed.

Lemma update_existing_rows from_t to_t :
  rows (update_existing join_keys cols from_t to_t) =
  map (update_row join_keys cols (rows from_t)) (rows to_t).
Proof. done. Qed.

(** The update leaves the primary-key cells of a row as they are. *)
Lemma update_row_keys from_rows d k :
  k ∈ join_keys → cell (update_row join_keys cols from_rows d) k = cell d k.
Proof.
  intros Hk. unfold update_row.
  destruct (filter _ from_rows) as [| s ss] eqn:Hf; [done |].
  assert (matches join_keys s d) as Hm.
  { assert (s ∈ s :: ss) as Hin by left. rewrite <- Hf in Hin.
    by apply list_elem_of_filter in Hin as [? _]. }
  apply matches_iff in Hm. rewrite Forall_forall in Hm.
  destruct (Hm k Hk) as [_ Heq]. rewrite overwrite_cell. by case_decide.
Qed.

Lemma update_row_matches from_rows s d :
  join_condition join_keys s (update_row join_keys cols from_rows d) =
  join_condition join_keys s d.
Proof. apply matches_ext. intros k Hk. by apply update_row_keys. Qed.

Lemma update_row_idemp from_rows d :
  update_row join_keys cols from_rows (update_row join_keys cols from_rows d) =
  update_row join_keys cols from_rows d.
Proof.
  unfold update_row at 1.
  rewrite (list_filter_iff _ (λ s, holds (join_condition join_keys s d) = true))
    by (intros s; by rewrite update_row_matches).
  unfold update_row.
  destruct (filter _ from_rows) as [| s ss]; [done | apply overwrite_idemp].
Qed.

Lemma select_columns_matches s :
  join_keys ⊆ names → keys_not_null join_keys s →
  matches join_keys s (select_columns names s).
Proof.
  intros Hsub Hnn. apply matches_iff. unfold keys_not_null in Hnn.
  rewrite Forall_forall in Hnn |- *. intros k Hk. split; [by apply Hnn |].
  unfold cell at 2. rewrite select_columns_lookup, decide_True by (by apply Hsub).
  done.
Qed.

(** Merging the same staging rows a second time changes nothing. *)
Lemma merge_idemp from_t to_t :
  join_keys ≠ [] → join_keys ⊆ names →
  Forall (keys_not_null join_keys) (rows from_t) →
  merge join_keys names cols from_t (merge join_keys names cols from_t to_t) =
  merge join_keys names cols from_t to_t.
Proof.
  intros Hne Hsub Hnn.
  set (t1 := merge join_keys names cols from_t to_t).
  assert (filter (unmatched join_keys (rows t1)) (rows from_t) = []) as Hnone.
  { apply filter_none. apply Forall_forall. intros s Hs Hun.
    unfold unmatched in Hun. rewrite Forall_forall in Hun.
    rewrite Forall_forall in Hnn. specialize (Hnn s Hs).
    subst t1. unfold merge in Hun. rewrite update_existing_rows, insert_new_rows in Hun by done.
    destruct (decide (unmatched join_keys (rows to_t) s)) as [Hu | Hu].
    - apply (Hun (update_row join_keys cols (rows from_t) (select_columns names s))).
      + apply list_elem_of_fmap. exists (select_columns names s). split; [done |].
        apply elem_of_app. right. apply list_elem_of_fmap. exists s. split; [done |].
        by apply list_elem_of_filter.
      + unfold matches. rewrite update_row_matches. by apply select_columns_matches.
    - apply not_Forall_Exists in Hu; [| unfold matches; apply _].
      apply Exists_exists in Hu as (d & Hd & Hm).
      apply (Hun (update_row join_keys cols (rows from_t) d)).
      + apply list_elem_of_fmap. exists d. split; [done |]. apply elem_of_app. by left.
      + unfold matches. rewrite update_row_matches.
        simpl in Hm. unfold matches in Hm.
        destruct (holds (join_condition join_keys s d)); [done | by destruct Hm]. }
  unfold merge at 1. fold t1.
  assert (insert_new join_keys names from_t t1 = t1) as ->.
  { destruct t1 as [c1 r1] eqn:Ht1.
    pose proof (insert_new_rows from_t (Table c1 r1) Hne) as Hrows.
    unfold insert_new in *. cbn [rows columns] in *. f_equal.
    rewrite Hrows, Hnone. apply app_nil_r. }
  subst t1. unfold merge, update_existing. cbn [rows columns]. f_equal.
  rewrite <- list_fmap_compose. apply list_fmap_ext. intros i d _. simpl.
  apply update_row_idemp.
Qed.
End merge_rows.

(** * The merge as the sink runs it *)

Lemma for_each_ok {A} (f : A → outcome unit) (l : list A) :
  Forall (λ x, f x = Return ()) l → for_each f l = Return ().
Proof. induction 1 as [| x l Hx _ IH]; [done |]. simpl. by rewrite Hx. Qed.

Lemma column_lookup_ok t key : key ∈ h_columns t → column_lookup t key = Return ().
Proof. intros Hk. unfold column_lookup. by rewrite bool_decide_eq_true_2. Qed.

Lemma column_lookups_ok t1 t2 (l : list string) :
  l ⊆ h_columns t1 → l ⊆ h_columns t2 →
  for_each (λ key, _ ← column_lookup t1 key; column_lookup t2 key) l = Return ().
Proof.
  intros H1 H2. apply for_each_ok, Forall_forall. intros k Hk.
  by rewrite !column_lookup_ok by auto.
Qed.

Lemma upsert_run self from_table to_table join_keys w from_t to_t :
  merge_ready self from_table to_table join_keys w from_t to_t →
  upsert self from_table to_table join_keys w =
    (Return (),
     World (<[h_name to_table :=
               merge join_keys (h_columns from_table) (map fst (schema_properties self))
                     from_t to_t]> (tables w))
           (log w ++
            [InsertNew (h_name to_table) (h_name from_table) join_keys
                       (h_columns from_table);
             UpdateExisting (h_name to_table) (h_name from_table) join_keys
                            (map fst (schema_properties self))])
           (schemas w)).
Proof.
  intros (Hmode & Hkeys & Hk1 & Hk2 & Hc1 & Hc2 & Hne & Hf & Ht).
  unfold upsert, append_only. rewrite Hmode.
  unfold mbind, M_bind, mret, M_ret, lift.
  rewrite column_lookups_ok by done.
  rewrite for_each_ok
    by (apply Forall_forall; intros k Hk; apply column_lookup_ok; auto).
  erewrite execute_ok
    by (cbn [run_stmt]; rewrite bool_decide_eq_false_2 by done;
        rewrite Hf; cbn; rewrite Ht; reflexivity).
  rewrite column_lookups_ok by done.
  erewrite execute_ok.
  - cbn [log]. by rewrite <- app_assoc.
  - cbn [run_stmt tables].
    rewrite (lookup_insert_ne _ (h_name to_table) (h_name from_table)) by congruence.
    rewrite Hf. cbn.
    rewrite lookup_insert_eq. cbn. by rewrite insert_insert_eq.
Qed.

Lemma merge_ready_again self from_table to_table join_keys w from_t to_t t1 l :
  merge_ready self from_table to_table join_keys w from_t to_t →
  merge_ready self from_table to_table join_keys
    (World (<[h_name to_table := t1]> (tables w)) l (schemas w)) from_t t1.
Proof.
  intros (? & ? & ? & ? & ? & ? & Hne & Hf & Ht).
  repeat (split; [done |]). split.
  - cbn. by rewrite lookup_insert_ne by congruence.
  - cbn. by rewrite lookup_insert_eq.
Qed.

Lemma NoDup_map_eq {A B} (g : A → B) (l : list A) x y :
  NoDup (map g l) → x ∈ l → y ∈ l → g x = g y → x = y.
Proof.
  induction l as [| a l IH]; intros Hnd Hx Hy Heq; [by apply elem_of_nil in Hx |].
  cbn [map] in Hnd. apply NoDup_cons in Hnd as [Ha Hnd].
  apply elem_of_cons in Hx as [-> | Hx]; apply elem_of_cons in Hy as [-> | Hy]; auto.
  - destruct Ha. rewrite Heq. apply list_elem_of_fmap. by exists y.
  - destruct Ha. rewrite <- Heq. apply list_elem_of_fmap. by exists x.
Qed.

Lemma matches_pk_tuple join_keys s d :
  matches join_keys s d → pk_tuple join_keys s = pk_tuple join_keys d.
Proof.
  intros Hm%matches_iff. unfold pk_tuple.
  induction Hm as [| k ks [_ Hk] _ IH]; [done |]. cbn [map]. by rewrite Hk, IH.
Qed.

(** Under at most one staging row per key tuple, the row the update
    takes for [d] is the staging row that matches it. *)
Lemma update_row_unique join_keys cols from_rows s d :
  unique_keys join_keys from_rows → s ∈ from_rows → matches join_keys s d →
  update_row join_keys cols from_rows d = overwrite cols s d.
Proof.
  intros Huniq Hs Hm. unfold update_row.
  destruct (filter _ from_rows) as [| s' ss] eqn:Hf.
  - assert (s ∈ filter (λ s0, holds (join_condition join_keys s0 d) = true) from_rows)
      as Hin by (by apply list_elem_of_filter).
    rewrite Hf in Hin. by apply elem_of_nil in Hin.
  - assert (s' ∈ s' :: ss) as Hin by left. rewrite <- Hf in Hin.
    apply list_elem_of_filter in Hin as [Hm' Hs'].
    assert (s' = s) as ->; [| done].
    apply (NoDup_map_eq (pk_tuple join_keys) from_rows); [done.. |].
    by rewrite (matches_pk_tuple join_keys s' d), (matches_pk_tuple join_keys s d).
Qed.

(** C3.  In upsert mode, for the rows of a staging table whose join
    keys are its primary key, so with at most one row per key tuple and
    no NULL in a key column, and any destination rows: the merge returns
    normally both times, and running it a second time on the result of
    the first leaves every table as the first run left it. *)
Theorem upsert_idempotent_on_non_null_keys
    self from_table to_table join_keys w from_t to_t :
  merge_ready self from_table to_table join_keys w from_t to_t →
  unique_keys join_keys (rows from_t) →
  Forall (keys_not_null join_keys) (rows from_t) →
  ∃ w1 w2,
    upsert self from_table to_table join_keys w = (Return (), w1) ∧
    upsert self from_table to_table join_keys w1 = (Return (), w2) ∧
    tables w2 = tables w1.
Proof.
  intros Hready _ Hnn.
  pose proof Hready as (_ & Hne & Hsub & _).
  eexists _, _. split; [by apply (upsert_run _ _ _ _ _ from_t to_t) |].
  split.
  - eapply upsert_run. by apply (merge_ready_again _ _ _ _ _ from_t to_t).
  - cbn [tables]. rewrite insert_insert_eq. by rewrite merge_idemp.
Qed.

Lemma upsert_idempotent_on_non_null_keys_witness :
  ∃ w1 w2,
    upsert (users_sink false) staging_handle users_handle ["id"] two_keys_world
      = (Return (), w1) ∧
    upsert (users_sink false) staging_handle users_handle ["id"] w1 = (Return (), w2) ∧
    tables w2 = tables w1.
Proof.
  apply (upsert_idempotent_on_non_null_keys (users_sink false) staging_handle
           users_handle ["id"] two_keys_world
           (Table ["id"; "name"]
                  [row [("id", VInt 1); ("name", VStr "ann")];
                   row [("id", VInt 2); ("name", VStr "bob")]])
           (Table ["id"; "name"; "_sdc_table_version"]
                  [row [("id", VInt 2); ("name", VStr "old");
                        ("_sdc_table_version", VInt 5)]])).
  - unfold merge_ready.
    repeat split; try reflexivity; try discriminate;
      (apply (bool_decide_unpack _); vm_compute; exact I).
  - unfold unique_keys. apply (bool_decide_unpack _). vm_compute. exact I.
  - repeat constructor; discriminate.
Defined.

Lemma select_columns_cell names r c :
  c ∈ names → cell (select_columns names r) c = cell r c.
Proof. intros Hc. unfold cell at 1. by rewrite select_columns_lookup, decide_True. Qed.

Lemma select_columns_pk_tuple join_keys names r :
  join_keys ⊆ names →
  pk_tuple join_keys (select_columns names r) = pk_tuple join_keys r.
Proof.
  intros Hsub. unfold pk_tuple. apply map_ext_in. intros k Hk.
  apply select_columns_cell, Hsub. by apply list_elem_of_In.
Qed.

Lemma merge_rows join_keys names cols from_t to_t :
  join_keys ≠ [] →
  rows (merge join_keys names cols from_t to_t) =
  map (update_row join_keys cols (rows from_t))
      (rows to_t ++ map (select_columns names)
                        (filter (unmatched join_keys (rows to_t)) (rows from_t))).
Proof.
  intros Hne. unfold merge. by rewrite update_existing_rows, insert_new_rows.
Qed.

(** C4.  In upsert mode, for staging rows with at most one row per
    primary-key tuple, one merge returns normally and afterwards: every
    staging row that no destination row matched on the key is present in
    the destination with the staging row's value in every staging column;
    and every destination row that a staging row matched is still at its
    place, holds the staging row's value in every column of the schema,
    has its key columns unchanged (they are rewritten with equal values),
    and keeps every column that is not in the schema. *)
Theorem upsert_partition self from_table to_table join_keys w from_t to_t :
  merge_ready self from_table to_table join_keys w from_t to_t →
  unique_keys join_keys (rows from_t) →
  ∃ w1 t1,
    upsert self from_table to_table join_keys w = (Return (), w1) ∧
    tables w1 !! h_name to_table = Some t1 ∧
    (∀ s, s ∈ rows from_t → unmatched join_keys (rows to_t) s →
       ∃ d1, d1 ∈ rows t1 ∧ ∀ c, c ∈ h_columns from_table → cell d1 c = cell s c) ∧
    (∀ i d s, rows to_t !! i = Some d → s ∈ rows from_t → matches join_keys s d →
       ∃ d1, rows t1 !! i = Some d1 ∧
         (∀ c, c ∈ map fst (schema_properties self) → cell d1 c = cell s c) ∧
         (∀ k, k ∈ join_keys → cell d1 k = cell d k) ∧
         (∀ c, c ∉ map fst (schema_properties self) → cell d1 c = cell d c)).
Proof.
  intros Hready Huniq.
  pose proof Hready as (_ & Hne & Hsub & _).
  set (names := h_columns from_table) in *.
  set (cols := map fst (schema_properties self)) in *.
  eexists _, (merge join_keys names cols from_t to_t).
  split; [by apply (upsert_run _ _ _ _ _ from_t to_t) |].
  split; [cbn [tables]; apply lookup_insert_eq |].
  rewrite merge_rows by done. split.
  - intros s Hs Hun.
    exists (update_row join_keys cols (rows from_t) (select_columns names s)). split.
    { apply list_elem_of_fmap. eexists. split; [done |]. apply elem_of_app. right.
      apply list_elem_of_fmap. exists s. split; [done |]. by apply list_elem_of_filter. }
    intros c Hc. unfold update_row.
    destruct (filter _ (rows from_t)) as [| s' ss] eqn:Hf.
    { by apply select_columns_cell. }
    assert (s' ∈ s' :: ss) as Hin by left. rewrite <- Hf in Hin.
    apply list_elem_of_filter in Hin as [Hm' Hs'].
    assert (s' = s) as ->.
    { apply (NoDup_map_eq (pk_tuple join_keys) (rows from_t)); [done.. |].
      rewrite (matches_pk_tuple join_keys s' (select_columns names s)) by done.
      by apply select_columns_pk_tuple. }
    rewrite overwrite_cell. case_decide; [done | by apply select_columns_cell].
  - intros i d s Hd Hs Hm.
    exists (update_row join_keys cols (rows from_t) d). split.
    { change (map ?f ?l) with (f <$> l). rewrite list_lookup_fmap.
      by erewrite lookup_app_l_Some. }
    split; [| split].
    + intros c Hc. rewrite (update_row_unique join_keys cols _ s) by done.
      by rewrite overwrite_cell, decide_True.
    + intros k Hk. by apply update_row_keys.
    + intros c Hc. rewrite (update_row_unique join_keys cols _ s) by done.
      by rewrite overwrite_cell, decide_False.
Qed.

Lemma upsert_partition_witness :
  ∃ w1 t1,
    upsert (users_sink false) staging_handle users_handle ["id"] two_keys_world
      = (Return (), w1) ∧
    tables w1 !! "users" = Some t1 ∧
    rows t1 = [row [("id", VInt 2); ("name", VStr "bob"); ("_sdc_table_version", VInt 5)];
               row [("id", VInt 1); ("name", VStr "ann")]].
Proof.
  destruct (upsert_partition (users_sink false) staging_handle users_handle ["id"]
              two_keys_world
              (Table ["id"; "name"]
                     [row [("id", VInt 1); ("name", VStr "ann")];
                      row [("id", VInt 2); ("name", VStr "bob")]])
              (Table ["id"; "name"; "_sdc_table_version"]
                     [row [("id", VInt 2); ("name", VStr "old");
                           ("_sdc_table_version", VInt 5)]]))
    as (w1 & t1 & Hrun & Ht1 & _).
  - unfold merge_ready.
    repeat split; try reflexivity; try discriminate;
      (apply (bool_decide_unpack _); vm_compute; exact I).
  - unfold unique_keys. apply (bool_decide_unpack _). vm_compute. exact I.
  - exists w1, t1. split; [exact Hrun |]. split; [exact Ht1 |].
    assert (upsert (users_sink false) staging_handle users_handle ["id"] two_keys_world =
            (Return (),
             World {[ "staging" := Table ["id"; "name"]
                        [row [("id", VInt 1); ("name", VStr "ann")];
                         row [("id", VInt 2); ("name", VStr "bob")]];
                      "users" := Table ["id"; "name"; "_sdc_table_version"]
                        [row [("id", VInt 2); ("name", VStr "bob");
                              ("_sdc_table_version", VInt 5)];
                         row [("id", VInt 1); ("name", VStr "ann")]] ]}
                   [InsertNew "users" "staging" ["id"] ["id"; "name"];
                    UpdateExisting "users" "staging" ["id"] ["id"; "name"]] ∅))
      as Hval by (vm_compute; reflexivity).
    rewrite Hval in Hrun. injection Hrun as <-.
    vm_compute in Ht1. injection Ht1 as <-. vm_compute. reflexivity.
Defined.

(** * More on version activation *)

Lemma filter_all {A} (P : A → Prop) `{∀ x, Decision (P x)} (l : list A) :
  Forall P l → filter P l = l.
Proof.
  induction 1 as [| x l Hx _ IH]; [done |]. by rewrite filter_cons_True, IH.
Qed.

Lemma stale_or_null_mono version_col n1 n2 r :
  n2 ≤ n1 → stale_or_null version_col n2 r → stale_or_null version_col n1 r.
Proof.
  intros Hle [(z & Hz & Hzn) | Hnull]; [left | by right].
  exists z. split; [done | lia].
Qed.

Lemma delete_stale_again version_col n1 n2 t :
  n2 ≤ n1 →
  delete_stale version_col n2 (delete_stale version_col n1 t) =
  delete_stale version_col n1 t.
Proof.
  intros Hle. destruct t as [cs rs]. unfold delete_stale. cbn [columns rows]. f_equal.
  apply filter_all. apply Forall_forall. intros r Hr.
  apply list_elem_of_filter in Hr as [Hkeep _].
  destruct (holds (delete_where version_col n2 r)) eqn:Hh; [| done].
  apply delete_where_holds in Hh.
  apply (stale_or_null_mono _ n1) in Hh; [| done].
  apply delete_where_holds in Hh. congruence.
Qed.

(** Hard delete again, with the same or a lower watermark, changes no
    table: what the first run left has a version above the watermark. *)
Theorem hard_delete_twice self w tb n1 n2 at1 at2 :
  hard_delete self = true →
  tables w !! full_table_name self = Some tb →
  n2 ≤ n1 →
  ∃ w1 w2,
    activate_version self n1 at1 w = (Return (), w1) ∧
    activate_version self n2 at2 w1 = (Return (), w2) ∧
    tables w2 = tables w1.
Proof.
  intros Hhard Htb Hle.
  eexists _, _. split; [by apply activate_version_hard |].
  split.
  - apply activate_version_hard; [done |]. cbn [tables]. apply lookup_insert_eq.
  - cbn [tables columns rows delete_stale].
    rewrite insert_insert_eq. f_equal.
    assert (version_column_name self ∈
            (if bool_decide (version_column_name self ∈ columns tb)
             then columns tb else (columns tb ++ [version_column_name self])%list))
      as Hin.
    { case_bool_decide; [done |]. apply elem_of_app. right. by left. }
    rewrite (bool_decide_eq_true_2 _ Hin).
    pose proof (delete_stale_again (version_column_name self) n1 n2
      (Table (if bool_decide (version_column_name self ∈ columns tb)
              then columns tb else (columns tb ++ [version_column_name self])%list)
             (rows tb)) Hle) as Hagain.
    unfold delete_stale in Hagain. cbn [columns rows] in Hagain. exact Hagain.
Qed.

Lemma hard_delete_twice_witness :
  ∃ w1 w2,
    activate_version (users_sink true) 2 (instant "2024-01-01T00:00:00+00:00")
      users_1_2_3_null = (Return (), w1) ∧
    activate_version (users_sink true) 2 (instant "2024-02-01T00:00:00+00:00") w1
      = (Return (), w2) ∧
    tables w2 = tables w1.
Proof.
  apply (hard_delete_twice (users_sink true) users_1_2_3_null
           (Table ["id"; "name"; "_sdc_table_version"]
                  [user 1 (VInt 1); user 2 (VInt 2); user 3 (VInt 3); user 4 VNone])
           2 2); [reflexivity | reflexivity | lia].
Defined.

(** On a table that has no version column yet, hard delete adds the
    column, which is NULL in every row, and so deletes every row. *)
Theorem hard_delete_without_version_column self w tb new_version deleted_at :
  hard_delete self = true →
  tables w !! full_table_name self = Some tb →
  version_column_name self ∉ columns tb →
  Forall (λ r : record, r !! version_column_name self = None) (rows tb) →
  activate_version self new_version deleted_at w =
    (Return (),
     World (<[full_table_name self :=
               Table (columns tb ++ [version_column_name self]) []]> (tables w))
           (log w ++ [AddColumn (full_table_name self) (version_column_name self);
                      DeleteStale (full_table_name self) (version_column_name self)
                                  new_version])
           (schemas w)).
Proof.
  intros Hhard Htb Hcol Hrows.
  rewrite (activate_version_hard self w tb) by done. cbn zeta.
  rewrite bool_decide_eq_false_2 by done.
  f_equal. f_equal. f_equal. unfold delete_stale. cbn [columns rows]. f_equal.
  apply filter_none. apply Forall_forall. intros r Hr.
  rewrite Forall_forall in Hrows. specialize (Hrows r Hr).
  intros Hkeep. unfold delete_where, cell in Hkeep. by rewrite Hrows in Hkeep.
Qed.

Lemma hard_delete_without_version_column_witness :
  ∃ w',
    activate_version (users_sink true) 0 (instant "2024-01-01T00:00:00+00:00")
      (World {[ "users" := Table ["id"; "name"]
                  [row [("id", VInt 1)]; row [("id", VInt 2)]] ]} [] ∅) = (Return (), w') ∧
    rows <$> tables w' !! "users" = Some [].
Proof.
  eexists. split.
  - apply (hard_delete_without_version_column (users_sink true)
             (World {[ "users" := Table ["id"; "name"]
                         [row [("id", VInt 1)]; row [("id", VInt 2)]] ]} [] ∅)
             (Table ["id"; "name"] [row [("id", VInt 1)]; row [("id", VInt 2)]])).
    + reflexivity.
    + reflexivity.
    + apply (bool_decide_unpack _). vm_compute. exact I.
    + repeat constructor.
  - reflexivity.
Defined.

(** * Adding a column when it is missing *)

Lemma ensure_column_run {B} name col tb (k : M B) w :
  tables w !! name = Some tb →
  (column_exists name col ≫= λ has : bool,
     (if negb has then prepare_column name col else mret ()) ≫= λ _, k) w =
  k (with_column name col tb w).
Proof.
  intros Htb. unfold mbind, M_bind, column_exists, with_column. rewrite Htb.
  destruct (bool_decide (col ∈ columns tb)); cbn -[execute]; [done |].
  unfold prepare_column. by erewrite execute_ok by (cbn; rewrite Htb; reflexivity).
Qed.

Lemma with_column_lookup name col tb w :
  tables w !! name = Some tb →
  tables (with_column name col tb w) !! name = Some (add_column col tb).
Proof.
  intros Htb. unfold with_column, add_column.
  destruct (bool_decide (col ∈ columns tb)); [done |]. cbn. apply lookup_insert_eq.
Qed.

Lemma with_column_insert name col tb w x :
  <[name := x]> (tables (with_column name col tb w)) = <[name := x]> (tables w).
Proof.
  unfold with_column. destruct (bool_decide (col ∈ columns tb)); [done |].
  cbn. apply insert_insert_eq.
Qed.

Lemma with_column_log name col tb w :
  log (with_column name col tb w) =
  (log w ++ (if bool_decide (col ∈ columns tb) then [] else [AddColumn name col]))%list.
Proof.
  unfold with_column. destruct (bool_decide (col ∈ columns tb)); [| done].
  by rewrite app_nil_r.
Qed.

Lemma with_column_schemas name col tb w :
  schemas (with_column name col tb w) = schemas w.
Proof. unfold with_column. by destruct (bool_decide (col ∈ columns tb)). Qed.

Lemma add_column_rows col tb : rows (add_column col tb) = rows tb.
Proof. unfold add_column. by destruct (bool_decide _). Qed.

Lemma add_column_elem col tb : col ∈ columns (add_column col tb).
Proof.
  unfold add_column. case_bool_decide; [done |]. cbn. apply elem_of_app. right. by left.
Qed.

Lemma add_column_keeps col c tb : c ∈ columns tb → c ∈ columns (add_column col tb).
Proof.
  unfold add_column. case_bool_decide; [done |]. cbn. intros ?. apply elem_of_app. by left.
Qed.

Lemma activate_version_soft self w tb new_version deleted_at :
  hard_delete self = false →
  tables w !! full_table_name self = Some tb →
  let name := full_table_name self in
  let vcol := version_column_name self in
  let dcol := soft_delete_column_name self in
  let tb1 := add_column vcol tb in
  let tb2 := add_column dcol tb1 in
  activate_version self new_version deleted_at w =
    (Return (),
     World (<[name := mark_deleted vcol dcol deleted_at new_version tb2]> (tables w))
           (log w ++
            (if bool_decide (vcol ∈ columns tb) then [] else [AddColumn name vcol]) ++
            (if bool_decide (dcol ∈ columns tb1) then [] else [AddColumn name dcol]) ++
            [MarkDeleted name vcol dcol deleted_at new_version])
           (schemas w)).
Proof.
  intros Hsoft Htb. cbn zeta.
  unfold activate_version.
  unfold mbind at 1, M_bind at 1, table_exists.
  rewrite Htb, bool_decide_eq_true_2 by eauto. cbn [negb].
  rewrite (ensure_column_run _ _ tb) by done. rewrite Hsoft.
  pose proof (with_column_lookup (full_table_name self) (version_column_name self) tb w Htb)
    as Htb1.
  rewrite (ensure_column_run _ _ _ _ _ Htb1).
  pose proof (with_column_lookup (full_table_name self) (soft_delete_column_name self)
                _ _ Htb1) as Htb2.
  erewrite execute_ok; cycle 1.
  { cbn [run_stmt]. rewrite Htb2. cbn.
    rewrite !bool_decide_eq_true_2
      by first [apply add_column_elem | apply add_column_keeps, add_column_elem].
    reflexivity. }
  cbn [run_schemas].
  rewrite !with_column_log, !with_column_insert, !with_column_schemas.
  by rewrite <- !app_assoc.
Qed.

(** In soft-delete mode, on an existing table, [activate_version] returns
    normally and removes no row: a row whose version is an integer below
    the watermark, or whose version and deletion timestamp are both NULL,
    gets the deletion timestamp; every other row is left as it is; no
    column but the deletion timestamp changes; no other table changes.
    The statements are exactly: ADD COLUMN for the version column when
    the table lacks it, ADD COLUMN for the deletion timestamp when the
    table then lacks it, and one UPDATE; the table's columns grow by the
    added ones. *)
Theorem soft_delete_activation self w tb new_version deleted_at :
  hard_delete self = false →
  tables w !! full_table_name self = Some tb →
  let name := full_table_name self in
  let vcol := version_column_name self in
  let dcol := soft_delete_column_name self in
  ∃ w' tb',
    activate_version self new_version deleted_at w = (Return (), w') ∧
    tables w' !! name = Some tb' ∧
    columns tb' = columns (add_column dcol (add_column vcol tb)) ∧
    length (rows tb') = length (rows tb) ∧
    (∀ i r, rows tb !! i = Some r →
       ∃ r', rows tb' !! i = Some r' ∧
         (marked vcol dcol new_version r → r' = <[dcol := deleted_at]> r) ∧
         (¬ marked vcol dcol new_version r → r' = r) ∧
         (∀ c, c ≠ dcol → r' !! c = r !! c)) ∧
    (∀ t, t ≠ name → tables w' !! t = tables w !! t) ∧
    log w' =
      (log w ++
       (if bool_decide (vcol ∈ columns tb) then [] else [AddColumn name vcol]) ++
       (if bool_decide (dcol ∈ columns (add_column vcol tb)) then []
        else [AddColumn name dcol]) ++
       [MarkDeleted name vcol dcol deleted_at new_version])%list.
Proof.
  intros Hsoft Htb. cbn zeta.
  eexists _, _.
  split; [by apply activate_version_soft |].
  cbn [tables log]. split; [apply lookup_insert_eq |].
  unfold mark_deleted. cbn [rows columns]. rewrite !add_column_rows.
  split; [done |].
  split; [by rewrite length_map |].
  split.
  - intros i r Hr. eexists. split.
    { change (map ?f ?l) with (f <$> l). by rewrite list_lookup_fmap, Hr. }
    destruct (holds (mark_where _ _ _ r)) eqn:Hh.
    + apply mark_where_holds in Hh. split; [done |]. split; [done |].
      intros c Hc. by rewrite lookup_insert_ne.
    + split; [| done]. intros Hm. apply mark_where_holds in Hm. congruence.
  - split; [intros t Ht; by rewrite lookup_insert_ne | done].
Qed.

Lemma soft_delete_activation_witness :
  ∃ w' tb',
    activate_version (users_sink false) 2 (instant "2024-01-01T00:00:00+00:00")
      users_1_2_null = (Return (), w') ∧
    tables w' !! "users" = Some tb' ∧
    length (rows tb') = 3%nat ∧
    log w' = [MarkDeleted "users" "_sdc_table_version" "_sdc_deleted_at"
                (instant "2024-01-01T00:00:00+00:00") 2].
Proof.
  destruct (soft_delete_activation (users_sink false) users_1_2_null
              (Table ["id"; "name"; "_sdc_table_version"; "_sdc_deleted_at"]
                     [user 1 (VInt 1); user 2 (VInt 2); user 3 VNone])
              2 (instant "2024-01-01T00:00:00+00:00") eq_refl eq_refl)
    as (w' & tb' & Hrun & Htb' & _ & Hlen & _ & _ & Hlog).
  exists w', tb'. split; [exact Hrun |]. split; [exact Htb' |].
  split; [exact Hlen |]. rewrite Hlog. vm_compute. reflexivity.
Defined.

(** * More on the merge *)

(** In append-only mode [upsert] is one INSERT ... SELECT: the staging
    rows, cut to the staging handle's columns, are added after the
    destination's rows, which stay as they are; no other table changes. *)
Theorem upsert_append_only self from_table to_table join_keys w from_t to_t :
  _append_only self = Some true →
  tables w !! h_name from_table = Some from_t →
  tables w !! h_name to_table = Some to_t →
  ∃ w' to_t',
    upsert self from_table to_table join_keys w = (Return (), w') ∧
    tables w' !! h_name to_table = Some to_t' ∧
    columns to_t' = columns to_t ∧
    rows to_t' =
      (rows to_t ++ map (select_columns (h_columns from_table)) (rows from_t))%list ∧
    (∀ t, t ≠ h_name to_table → tables w' !! t = tables w !! t) ∧
    log w' = (log w ++ [InsertAll (h_name to_table) (h_name from_table)
                                  (h_columns from_table)])%list.
Proof.
  intros Hmode Hf Ht. unfold upsert, append_only. rewrite Hmode.
  unfold mbind, M_bind, mret, M_ret.
  erewrite execute_ok by (cbn [run_stmt]; rewrite Hf; cbn; rewrite Ht; reflexivity).
  eexists _, _. split; [reflexivity |]. cbn [tables log].
  split; [apply lookup_insert_eq |]. split; [done |]. split; [done |].
  split; [| done]. intros t Hne. by rewrite lookup_insert_ne.
Qed.

Lemma upsert_append_only_witness :
  ∃ w' to_t',
    upsert (Sink "users" [("id", VNone); ("name", VNone)] [] (Some true)
                 (generate_temp_table_name 0) false "_sdc_table_version" "_sdc_deleted_at"
                 None "users")
           staging_handle users_handle [] two_keys_world = (Return (), w') ∧
    tables w' !! "users" = Some to_t' ∧
    length (rows to_t') = 3%nat.
Proof.
  destruct (upsert_append_only
              (Sink "users" [("id", VNone); ("name", VNone)] [] (Some true)
                    (generate_temp_table_name 0) false "_sdc_table_version"
                    "_sdc_deleted_at" None "users")
              staging_handle users_handle [] two_keys_world
              (Table ["id"; "name"]
                     [row [("id", VInt 1); ("name", VStr "ann")];
                      row [("id", VInt 2); ("name", VStr "bob")]])
              (Table ["id"; "name"; "_sdc_table_version"]
                     [row [("id", VInt 2); ("name", VStr "old");
                           ("_sdc_table_version", VInt 5)]])
              eq_refl eq_refl eq_refl)
    as (w' & to_t' & Hrun & Hto & _ & Hrows & _).
  exists w', to_t'. split; [exact Hrun |]. split; [exact Hto |]. by rewrite Hrows.
Defined.

Lemma column_lookup_fail t key :
  key ∉ h_columns t → column_lookup t key = Raised (KeyError key).
Proof. intros Hk. unfold column_lookup. by rewrite bool_decide_eq_false_2. Qed.

Lemma column_lookups_fail t1 t2 (l : list string) :
  ¬ (l ⊆ h_columns t1 ∧ l ⊆ h_columns t2) →
  ∃ k, k ∈ l ∧ (k ∉ h_columns t1 ∨ k ∉ h_columns t2) ∧
       for_each (λ key, _ ← column_lookup t1 key; column_lookup t2 key) l =
         Raised (KeyError k).
Proof.
  induction l as [| k l IH]; intros Hnot.
  - destruct Hnot. split; intros x Hx; by apply elem_of_nil in Hx.
  - cbn [for_each].
    destruct (decide (k ∈ h_columns t1)) as [H1 | H1].
    + rewrite (column_lookup_ok t1 k H1). cbn.
      destruct (decide (k ∈ h_columns t2)) as [H2 | H2].
      * rewrite (column_lookup_ok t2 k H2). cbn.
        destruct IH as (k' & Hk' & Hbad & Hrun).
        { intros [Hs1 Hs2]. apply Hnot.
          split; intros x [-> | Hx]%elem_of_cons; auto. }
        exists k'. split; [by right | done].
      * rewrite (column_lookup_fail t2 k H2). cbn.
        exists k. split; [by left |]. split; [by right | done].
    + rewrite (column_lookup_fail t1 k H1). cbn.
      exists k. split; [by left |]. split; [by left | done].
Qed.

(** In upsert mode a join key that is not a column of the staging or of
    the destination handle raises [KeyError] while the predicates are
    built: no statement is issued and the world is as it was. *)
Theorem upsert_unknown_join_key self from_table to_table join_keys w :
  _append_only self = Some false →
  ¬ (join_keys ⊆ h_columns from_table ∧ join_keys ⊆ h_columns to_table) →
  ∃ k, k ∈ join_keys ∧
       (k ∉ h_columns from_table ∨ k ∉ h_columns to_table) ∧
       upsert self from_table to_table join_keys w = (Raised (KeyError k), w).
Proof.
  intros Hmode Hnot.
  destruct (column_lookups_fail from_table to_table join_keys Hnot)
    as (k & Hk & Hbad & Hrun).
  exists k. split; [done |]. split; [done |].
  unfold upsert, append_only. rewrite Hmode.
  unfold mbind, M_bind, mret, M_ret, lift in *. by rewrite Hrun.
Qed.

Lemma upsert_unknown_join_key_witness :
  ∃ k, k ∈ ["uid"] ∧
       (k ∉ h_columns staging_handle ∨ k ∉ h_columns users_handle) ∧
       upsert (users_sink false) staging_handle users_handle ["uid"] two_keys_world
         = (Raised (KeyError k), two_keys_world).
Proof.
  apply (upsert_unknown_join_key (users_sink false) staging_handle users_handle ["uid"]
           two_keys_world); [reflexivity |].
  intros [Hsub _]. specialize (Hsub "uid" (list_elem_of_here _ _)).
  revert Hsub. apply (bool_decide_unpack _). vm_compute. exact I.
Defined.

(** Without a join key the merge does not get past its first statement:
    the engine rejects the outer join, whose ON clause is empty, and no
    table changes. *)
Lemma upsert_without_join_key self from_table to_table w :
  _append_only self = Some false →
  upsert self from_table to_table [] w =
    (Raised (DatabaseError (h_name to_table)),
     World (tables w)
           (log w ++ [InsertNew (h_name to_table) (h_name from_table) []
                                (h_columns from_table)])
           (schemas w)).
Proof. intros Hmode. unfold upsert, append_only. by rewrite Hmode. Qed.

(** In upsert mode, with at least one join key, the insert-new statement
    runs before the columns of the update are looked up: when the key
    columns are there but some schema property is not a column of a
    handle, [upsert] raises [KeyError] with the new rows already inserted
    and no update issued. *)
Theorem upsert_unknown_schema_column self from_table to_table join_keys w from_t to_t :
  _append_only self = Some false →
  join_keys ≠ [] →
  join_keys ⊆ h_columns from_table → join_keys ⊆ h_columns to_table →
  tables w !! h_name from_table = Some from_t →
  tables w !! h_name to_table = Some to_t →
  ¬ (map fst (schema_properties self) ⊆ h_columns from_table ∧
     map fst (schema_properties self) ⊆ h_columns to_table) →
  ∃ c, c ∈ map fst (schema_properties self) ∧
       (c ∉ h_columns from_table ∨ c ∉ h_columns to_table) ∧
       upsert self from_table to_table join_keys w =
         (Raised (KeyError c),
          World (<[h_name to_table :=
                    insert_new join_keys (h_columns from_table) from_t to_t]> (tables w))
                (log w ++ [InsertNew (h_name to_table) (h_name from_table) join_keys
                                     (h_columns from_table)])
                (schemas w)).
Proof.
  intros Hmode Hkeys Hk1 Hk2 Hf Ht Hnot.
  destruct (column_lookups_fail from_table to_table _ Hnot) as (c & Hc & Hbad & Hrun).
  exists c. split; [done |]. split; [done |].
  unfold upsert, append_only. rewrite Hmode.
  unfold mbind, M_bind, mret, M_ret, lift.
  rewrite column_lookups_ok by done.
  rewrite for_each_ok
    by (apply Forall_forall; intros k Hk; apply column_lookup_ok; auto).
  erewrite execute_ok
    by (cbn [run_stmt]; rewrite bool_decide_eq_false_2 by done;
        rewrite Hf; cbn; rewrite Ht; reflexivity).
  unfold mbind in Hrun. by rewrite Hrun.
Qed.

Lemma upsert_unknown_schema_column_witness :
  ∃ c w',
    upsert (users_sink false) (Handle "staging" None ["id"]) users_handle ["id"]
      two_keys_world = (Raised (KeyError c), w') ∧
    log w' = [InsertNew "users" "staging" ["id"] ["id"]].
Proof.
  destruct (upsert_unknown_schema_column (users_sink false)
              (Handle "staging" None ["id"]) users_handle ["id"] two_keys_world
              (Table ["id"; "name"]
                     [row [("id", VInt 1); ("name", VStr "ann")];
                      row [("id", VInt 2); ("name", VStr "bob")]])
              (Table ["id"; "name"; "_sdc_table_version"]
                     [row [("id", VInt 2); ("name", VStr "old");
                           ("_sdc_table_version", VInt 5)]]))
    as (c & _ & _ & Hrun).
  - reflexivity.
  - discriminate.
  - apply (bool_decide_unpack _). vm_compute. exact I.
  - apply (bool_decide_unpack _). vm_compute. exact I.
  - reflexivity.
  - reflexivity.
  - intros [Hsub _]. specialize (Hsub "name"). revert Hsub.
    cbn. intros Hsub. assert ("name" ∈ ["id"]) as Hin by (apply Hsub; set_solver).
    revert Hin. apply (bool_decide_unpack _). vm_compute. exact I.
  - eexists c, _. split; [exact Hrun | reflexivity].
Defined.

Lemma update_row_unmatched join_keys cols from_rows d :
  Forall (λ s, ¬ matches join_keys s d) from_rows →
  update_row join_keys cols from_rows d = d.
Proof.
  intros Hall. unfold update_row.
  by rewrite (filter_none (λ s, holds (join_condition join_keys s d) = true)).
Qed.

(** The merge deletes nothing: the destination grows by exactly the
    staging rows that matched no destination row, the rows that were
    there keep their positions, and a destination row that no staging
    row matches is left as it is. *)
Theorem upsert_keeps_destination_rows
    self from_table to_table join_keys w from_t to_t :
  merge_ready self from_table to_table join_keys w from_t to_t →
  ∃ w1 t1,
    upsert self from_table to_table join_keys w = (Return (), w1) ∧
    tables w1 !! h_name to_table = Some t1 ∧
    columns t1 = columns to_t ∧
    length (rows t1) =
      (length (rows to_t) +
       length (filter (unmatched join_keys (rows to_t)) (rows from_t)))%nat ∧
    (∀ i d, rows to_t !! i = Some d →
       Forall (λ s, ¬ matches join_keys s d) (rows from_t) →
       rows t1 !! i = Some d).
Proof.
  intros Hready. pose proof Hready as (_ & Hne & _).
  eexists _, _. split; [by apply (upsert_run _ _ _ _ _ from_t to_t) |].
  cbn [tables]. split; [apply lookup_insert_eq |]. split; [done |].
  rewrite merge_rows by done. split.
  - by rewrite length_map, length_app, length_map.
  - intros i d Hd Hun.
    change (map ?f ?l) with (f <$> l). rewrite list_lookup_fmap.
    erewrite lookup_app_l_Some by done. cbn. by rewrite update_row_unmatched.
Qed.

Lemma upsert_keeps_destination_rows_witness :
  ∃ w1 t1,
    upsert (users_sink false) staging_handle users_handle ["id"] two_keys_world
      = (Return (), w1) ∧
    tables w1 !! "users" = Some t1 ∧
    length (rows t1) = 2%nat.
Proof.
  destruct (upsert_keeps_destination_rows (users_sink false) staging_handle users_handle
              ["id"] two_keys_world
              (Table ["id"; "name"]
                     [row [("id", VInt 1); ("name", VStr "ann")];
                      row [("id", VInt 2); ("name", VStr "bob")]])
              (Table ["id"; "name"; "_sdc_table_version"]
                     [row [("id", VInt 2); ("name", VStr "old");
                           ("_sdc_table_version", VInt 5)]]))
    as (w1 & t1 & Hrun & Ht1 & _ & Hlen & _).
  - unfold merge_ready.
    repeat split; try reflexivity; try discriminate;
      (apply (bool_decide_unpack _); vm_compute; exact I).
  - exists w1, t1. split; [exact Hrun |]. split; [exact Ht1 |]. rewrite Hlen. reflexivity.
Defined.

(** The merge touches the destination only: the staging table and every
    other table are as before, and exactly two statements are issued,
    the insert of the new rows and then the update of the matched ones. *)
Theorem upsert_frame self from_table to_table join_keys w from_t to_t :
  merge_ready self from_table to_table join_keys w from_t to_t →
  ∃ w1,
    upsert self from_table to_table join_keys w = (Return (), w1) ∧
    tables w1 !! h_name from_table = Some from_t ∧
    (∀ t, t ≠ h_name to_table → tables w1 !! t = tables w !! t) ∧
    issued w w1 =
      [InsertNew (h_name to_table) (h_name from_table) join_keys (h_columns from_table);
       UpdateExisting (h_name to_table) (h_name from_table) join_keys
                      (map fst (schema_properties self))].
Proof.
  intros Hready. pose proof Hready as (_ & _ & _ & _ & _ & _ & Hne & Hf & _).
  eexists. split; [by apply (upsert_run _ _ _ _ _ from_t to_t) |].
  cbn [tables]. split; [by rewrite lookup_insert_ne by congruence |].
  split; [intros t Ht; by rewrite lookup_insert_ne |].
  unfold issued. cbn [log]. by rewrite drop_app_length.
Qed.

Lemma upsert_frame_witness :
  ∃ w1,
    upsert (users_sink false) staging_handle users_handle ["id"] two_keys_world
      = (Return (), w1) ∧
    issued two_keys_world w1 =
      [InsertNew "users" "staging" ["id"] ["id"; "name"];
       UpdateExisting "users" "staging" ["id"] ["id"; "name"]].
Proof.
  destruct (upsert_frame (users_sink false) staging_handle users_handle
              ["id"] two_keys_world
              (Table ["id"; "name"]
                     [row [("id", VInt 1); ("name", VStr "ann")];
                      row [("id", VInt 2); ("name", VStr "bob")]])
              (Table ["id"; "name"; "_sdc_table_version"]
                     [row [("id", VInt 2); ("name", VStr "old");
                           ("_sdc_table_version", VInt 5)]]))
    as (w1 & Hrun & _ & _ & Hlog).
  - unfold merge_ready.
    repeat split; try reflexivity; try discriminate;
      (apply (bool_decide_unpack _); vm_compute; exact I).
  - exists w1. split; [exact Hrun | exact Hlog].
Defined.

(** * A whole batch *)

Lemma has_key_values_has_keys primary_keys r :
  has_key_values primary_keys r → has_keys primary_keys r.
Proof.
  unfold has_key_values, has_keys. intros Hall.
  eapply Forall_impl; [exact Hall |]. intros k (v & Hv & _). eauto.
Qed.

Lemma inserted_rows_nonempty data : data ≠ [] → inserted_rows data = data.
Proof. by destruct data. Qed.

(** The dedup branch prepares at least one row for a batch that is not
    empty. *)
Lemma prepare_records_dedup_nonempty t cols primary_keys records data :
  records ≠ [] → Forall (has_keys primary_keys) records →
  prepare_records false t cols records primary_keys = Return data → data ≠ [].
Proof.
  intros Hne Hall Hprep.
  destruct (prepare_records_dedup t cols primary_keys records Hall) as (d & Hrun & _ & Hin).
  rewrite Hrun in Hprep. injection Hprep as <-.
  destruct records as [| r rest]; [done |].
  destruct (last_with_key primary_keys (composite_key primary_keys r) (r :: rest))
    as [r' |] eqn:Hlast.
  - assert ((composite_key primary_keys r, project cols r') ∈ d) as Hd
      by (apply Hin; eauto).
    intros Hnil. apply fmap_nil_inv in Hnil. rewrite Hnil in Hd.
    by apply elem_of_nil in Hd.
  - unfold last_with_key in Hlast. apply last_None in Hlast.
    by rewrite filter_cons_True in Hlast.
Qed.

Lemma bulk_insert_records_run self t schema records primary_keys b data tb w :
  _append_only self = Some b →
  prepare_records b t (column_representation schema) records primary_keys = Return data →
  tables w !! h_name t = Some tb →
  bulk_insert_records self t schema records primary_keys w =
    (Return true,
     World (<[h_name t := Table (columns tb) (rows tb ++ inserted_rows data)]> (tables w))
           (log w ++ [InsertIgnore (h_name t) data]) (schemas w)).
Proof.
  intros Hmode Hprep Htb. unfold bulk_insert_records, append_only. rewrite Hmode.
  unfold mbind, M_bind, mret, M_ret, lift. rewrite Hprep.
  by erewrite execute_ok by (cbn [run_stmt]; rewrite Htb; reflexivity).
Qed.

Lemma bulk_insert_records_raise self t schema records primary_keys b e w :
  _append_only self = Some b →
  prepare_records b t (column_representation schema) records primary_keys = Raised e →
  bulk_insert_records self t schema records primary_keys w = (Raised e, w).
Proof.
  intros Hmode Hprep. unfold bulk_insert_records, append_only. rewrite Hmode.
  unfold mbind, M_bind, mret, M_ret, lift. by rewrite Hprep.
Qed.

Lemma drop_table_run t tb w :
  tables w !! h_name t = Some tb →
  drop_table t w =
    (Return (), World (delete (h_name t) (tables w)) (log w ++ [DropTable (h_name t)])
                      (schemas w)).
Proof.
  intros Htb. unfold drop_table. by erewrite execute_ok by (cbn; rewrite Htb; reflexivity).
Qed.

Lemma process_batch_upsert_run self records w :
  let cols := column_representation (schema_properties self) in
  let name := full_table_name self in
  let temp := temp_table_name self in
  let keys := key_properties self in
  let dest := default (Table cols []) (tables w !! name) in
  _append_only self = Some false →
  keys ≠ [] → keys ⊆ cols → cols ⊆ columns dest →
  temp ≠ name →
  tables w !! temp = None →
  records ≠ [] →
  Forall (has_keys keys) records →
  ∃ data w',
    prepare_records false (Handle temp None cols) cols records keys = Return data ∧
    process_batch self records w = (Return (), w') ∧
    tables w' = <[name := merge keys cols cols (Table cols data) dest]> (tables w) ∧
    schemas w' = schemas w ∧
    issued w w' =
      (match tables w !! name with
       | Some _ => []
       | None => [CreateTable name cols keys false]
       end ++
       [CreateTable temp cols keys true;
        InsertIgnore temp data;
        InsertNew name temp keys cols;
        UpdateExisting name temp keys cols;
        DropTable temp])%list.
Proof.
  cbn zeta. intros Hmode Hne Hkeys Hcols Htemp Hfree Hsome Hall.
  set (cols := column_representation (schema_properties self)) in *.
  set (dest := default (Table cols []) (tables w !! full_table_name self)) in *.
  destruct (prepare_records_dedup (Handle (temp_table_name self) None cols) cols
              (key_properties self) records Hall) as (d & Hprep & _).
  pose proof (prepare_records_dedup_nonempty _ _ _ _ _ Hsome Hall Hprep) as Hdata.
  exists d.*2.
  destruct (prepare_table_main_run (full_table_name self) cols (key_properties self) w)
    as (w1 & Hrun1 & Htables1 & Hschemas1 & Hlog1). fold dest in Hrun1, Htables1.
  eexists. split; [exact Hprep |].
  unfold process_batch. fold cols.
  rewrite (bind_run _ _ _ _ _ Hrun1).
  rewrite (bind_run _ _ _ _ _ (prepare_table_temp _ _ _ _)).
  erewrite bind_run; cycle 1.
  { eapply (bulk_insert_records_run _ _ _ _ _ false); [done | exact Hprep |].
    cbn [h_name tables]. apply lookup_insert_eq. }
  rewrite (inserted_rows_nonempty _ Hdata).
  cbn [h_name columns rows app].
  erewrite bind_run; cycle 1.
  { apply (upsert_run _ _ _ _ _ (Table cols d.*2) dest).
    unfold merge_ready. cbn [h_name h_columns tables].
    repeat split; try done.
    - intros k Hk. by apply Hcols, Hkeys.
    - apply lookup_insert_eq.
    - rewrite !lookup_insert_ne by done. rewrite Htables1. apply lookup_insert_eq. }
  erewrite drop_table_run; cycle 1.
  { cbn [h_name tables]. rewrite lookup_insert_ne by done. apply lookup_insert_eq. }
  split; [reflexivity |]. cbn [tables log schemas h_name h_columns].
  split; [| split; [done |]].
  - rewrite Htables1. apply map_eq. intros t.
    destruct (decide (t = temp_table_name self)) as [-> | Ht].
    + rewrite lookup_delete_eq, lookup_insert_ne by done. by rewrite Hfree.
    + rewrite lookup_delete_ne by done.
      destruct (decide (t = full_table_name self)) as [-> | Ht'].
      * by rewrite !lookup_insert_eq.
      * by rewrite !(lookup_insert_ne _ _ t) by done.
  - unfold issued. cbn [log]. rewrite Hlog1. rewrite <- !app_assoc.
    by rewrite drop_app_length.
Qed.

(** In upsert mode, for a batch that is not empty, with every record
    holding a value other than [None] in each key field, and no table
    yet under the staging name, [process_batch] returns normally: the
    destination (created empty when it was missing) becomes the merge of
    the prepared rows into it, the staging table is gone again and no
    other table changes; the statements are, in order, the creation of
    the staging table, the bulk insert, the two statements of the merge
    and the drop. *)
Theorem process_batch_upsert self records w :
  let cols := column_representation (schema_properties self) in
  let name := full_table_name self in
  let temp := temp_table_name self in
  let keys := key_properties self in
  let dest := default (Table cols []) (tables w !! name) in
  _append_only self = Some false →
  keys ≠ [] → keys ⊆ cols → cols ⊆ columns dest →
  temp ≠ name →
  tables w !! temp = None →
  records ≠ [] →
  Forall (has_key_values keys) records →
  ∃ data w',
    prepare_records false (Handle temp None cols) cols records keys = Return data ∧
    process_batch self records w = (Return (), w') ∧
    tables w' = <[name := merge keys cols cols (Table cols data) dest]> (tables w) ∧
    tables w' !! temp = None ∧
    issued w w' =
      (match tables w !! name with
       | Some _ => []
       | None => [CreateTable name cols keys false]
       end ++
       [CreateTable temp cols keys true;
        InsertIgnore temp data;
        InsertNew name temp keys cols;
        UpdateExisting name temp keys cols;
        DropTable temp])%list.
Proof.
  cbn zeta. intros Hmode Hne Hkeys Hcols Htemp Hfree Hsome Hall.
  assert (Forall (has_keys (key_properties self)) records) as Hhas.
  { eapply Forall_impl; [exact Hall |]. apply has_key_values_has_keys. }
  destruct (process_batch_upsert_run self records w Hmode Hne Hkeys Hcols Htemp Hfree
              Hsome Hhas)
    as (data & w' & Hprep & Hrun & Htables & _ & Hlog).
  exists data, w'. split; [exact Hprep |]. split; [exact Hrun |].
  split; [exact Htables |]. split; [| exact Hlog].
  rewrite Htables. by rewrite lookup_insert_ne by congruence.
Qed.

Lemma process_batch_upsert_witness :
  ∃ data w',
    process_batch (users_sink false)
      [row [("id", VInt 1); ("name", VStr "ann")];
       row [("id", VInt 2); ("name", VStr "bob")];
       row [("id", VInt 1); ("name", VStr "cat")]] users_only_world = (Return (), w') ∧
    tables w' =
      <["users" := merge ["id"] ["id"; "name"] ["id"; "name"]
                     (Table ["id"; "name"] data)
                     (Table ["id"; "name"] [row [("id", VInt 2); ("name", VStr "old")]])]>
        (tables users_only_world).
Proof.
  destruct (process_batch_upsert (users_sink false)
              [row [("id", VInt 1); ("name", VStr "ann")];
               row [("id", VInt 2); ("name", VStr "bob")];
               row [("id", VInt 1); ("name", VStr "cat")]] users_only_world)
    as (data & w' & _ & Hrun & Htables & _ & _).
  - reflexivity.
  - discriminate.
  - apply (bool_decide_unpack _). vm_compute. exact I.
  - apply (bool_decide_unpack _). vm_compute. exact I.
  - apply (bool_decide_unpack _). vm_compute. exact I.
  - reflexivity.
  - discriminate.
  - repeat constructor; eexists; (split; [reflexivity | discriminate]).
  - exists data, w'. split; [exact Hrun | exact Htables].
Defined.

(** In upsert mode, when some record has no entry for a key field,
    [process_batch] raises after the staging table was created and
    before anything is inserted: the staging table is left behind,
    empty, and is never dropped; the destination is as it was (or
    created empty). *)
Theorem process_batch_missing_key self records w :
  let cols := column_representation (schema_properties self) in
  let name := full_table_name self in
  let temp := temp_table_name self in
  let keys := key_properties self in
  let dest := default (Table cols []) (tables w !! name) in
  _append_only self = Some false →
  ¬ Forall (has_keys keys) records →
  ∃ msg k w',
    process_batch self records w = (Raised (RuntimeError msg (KeyError k)), w') ∧
    tables w' = <[temp := Table cols []]> (<[name := dest]> (tables w)) ∧
    issued w w' =
      (match tables w !! name with
       | Some _ => []
       | None => [CreateTable name cols keys false]
       end ++ [CreateTable temp cols keys true])%list.
Proof.
  cbn zeta. intros Hmode Hnot.
  set (cols := column_representation (schema_properties self)) in *.
  destruct (prepare_records_missing (Handle (temp_table_name self) None cols) cols
              (key_properties self) records Hnot) as (r & k & _ & _ & _ & Hprep).
  destruct (prepare_table_main_run (full_table_name self) cols (key_properties self) w)
    as (w1 & Hrun1 & Htables1 & _ & Hlog1).
  eexists _, k, _. unfold process_batch. fold cols.
  rewrite (bind_run _ _ _ _ _ Hrun1).
  rewrite (bind_run _ _ _ _ _ (prepare_table_temp _ _ _ _)).
  erewrite bind_raise; cycle 1.
  { by eapply (bulk_insert_records_raise _ _ _ _ _ false). }
  split; [reflexivity |]. cbn [tables log].
  split; [by rewrite Htables1 |].
  unfold issued. cbn [log]. rewrite Hlog1, <- app_assoc. by rewrite drop_app_length.
Qed.

Lemma process_batch_missing_key_witness :
  ∃ msg k w',
    process_batch (users_sink false) [row [("name", VStr "ann")]] users_only_world
      = (Raised (RuntimeError msg (KeyError k)), w') ∧
    tables w' !! temp_table_name (users_sink false) = Some (Table ["id"; "name"] []).
Proof.
  destruct (process_batch_missing_key (users_sink false) [row [("name", VStr "ann")]]
              users_only_world) as (msg & k & w' & Hrun & Htables & _).
  - reflexivity.
  - intros Hall. apply Forall_cons in Hall as [Hkeys _].
    apply Forall_cons in Hkeys as [[v Hv] _]. discriminate.
  - exists msg, k, w'. split; [exact Hrun |]. rewrite Htables. apply lookup_insert_eq.
Defined.

Lemma select_columns_append_row cols r :
  select_columns cols (append_row cols r) = append_row cols r.
Proof.
  apply map_eq. intros c. rewrite select_columns_lookup. unfold cell.
  rewrite !append_row_lookup. by case_decide.
Qed.


(** A batch in append-only mode, empty or not: the rows that the bulk
    insert put into the staging table are copied to the destination. *)
Lemma process_batch_append_only_run self records w :
  let cols := column_representation (schema_properties self) in
  let name := full_table_name self in
  let temp := temp_table_name self in
  let keys := key_properties self in
  let dest := default (Table cols []) (tables w !! name) in
  let data := map (append_row cols) records in
  _append_only self = Some true →
  temp ≠ name →
  tables w !! temp = None →
  ∃ w',
    process_batch self records w = (Return (), w') ∧
    tables w' =
      <[name := Table (columns dest)
                      (rows dest ++ map (select_columns cols) (inserted_rows data))]>
        (tables w) ∧
    issued w w' =
      (match tables w !! name with
       | Some _ => []
       | None => [CreateTable name cols keys false]
       end ++
       [CreateTable temp cols keys true;
        InsertIgnore temp data;
        InsertAll name temp cols;
        DropTable temp])%list.
Proof.
  cbn zeta. intros Hmode Htemp Hfree.
  set (cols := column_representation (schema_properties self)) in *.
  set (dest := default (Table cols []) (tables w !! full_table_name self)) in *.
  destruct (prepare_table_main_run (full_table_name self) cols (key_properties self) w)
    as (w1 & Hrun1 & Htables1 & _ & Hlog1). fold dest in Hrun1, Htables1.
  eexists. unfold process_batch. fold cols.
  rewrite (bind_run _ _ _ _ _ Hrun1).
  rewrite (bind_run _ _ _ _ _ (prepare_table_temp _ _ _ _)).
  erewrite bind_run; cycle 1.
  { eapply (bulk_insert_records_run _ _ _ _ _ true); [done | reflexivity |].
    cbn [h_name tables]. apply lookup_insert_eq. }
  cbn [h_name columns rows app].
  unfold upsert, append_only. rewrite Hmode.
  unfold mbind at 2, M_bind at 2, mret, M_ret.
  erewrite bind_run; cycle 1.
  { erewrite execute_ok; [reflexivity |]. cbn [run_stmt tables h_name h_columns].
    rewrite lookup_insert_eq. cbn.
    rewrite !lookup_insert_ne by done. rewrite Htables1, lookup_insert_eq. reflexivity. }
  erewrite drop_table_run; cycle 1.
  { cbn [h_name tables]. rewrite lookup_insert_ne by done. apply lookup_insert_eq. }
  split; [reflexivity |]. cbn [tables log h_name h_columns].
  split.
  - apply map_eq. intros t.
    destruct (decide (t = temp_table_name self)) as [-> | Ht].
    + rewrite lookup_delete_eq, lookup_insert_ne by done. by rewrite Hfree.
    + rewrite lookup_delete_ne by done.
      destruct (decide (t = full_table_name self)) as [-> | Ht'].
      * by rewrite !lookup_insert_eq.
      * by rewrite !(lookup_insert_ne _ _ t) by done.
  - unfold issued. cbn [log]. rewrite Hlog1. rewrite <- !app_assoc.
    by rewrite drop_app_length.
Qed.

(** In append-only mode, which is the mode of a sink without key
    properties, for a batch that is not empty, with the schema's columns
    among the destination's and no table yet under the staging name,
    [process_batch] returns normally and adds one row per record, in
    arrival order, after the rows the destination had (it is created
    empty when missing); the staging table is gone again and no other
    table changes. *)
Theorem process_batch_append_only self records w :
  let cols := column_representation (schema_properties self) in
  let name := full_table_name self in
  let temp := temp_table_name self in
  let keys := key_properties self in
  let dest := default (Table cols []) (tables w !! name) in
  _append_only self = Some true →
  keys = [] →
  cols ⊆ columns dest →
  temp ≠ name →
  tables w !! temp = None →
  records ≠ [] →
  ∃ w',
    process_batch self records w = (Return (), w') ∧
    tables w' =
      <[name := Table (columns dest) (rows dest ++ map (append_row cols) records)]>
        (tables w) ∧
    issued w w' =
      (match tables w !! name with
       | Some _ => []
       | None => [CreateTable name cols keys false]
       end ++
       [CreateTable temp cols keys true;
        InsertIgnore temp (map (append_row cols) records);
        InsertAll name temp cols;
        DropTable temp])%list.
Proof.
  cbn zeta. intros Hmode _ _ Htemp Hfree Hsome.
  destruct (process_batch_append_only_run self records w Hmode Htemp Hfree)
    as (w' & Hrun & Htables & Hlog).
  exists w'. split; [exact Hrun |]. split; [| exact Hlog].
  rewrite Htables. do 3 f_equal.
  rewrite inserted_rows_nonempty by (by destruct records).
  rewrite map_map. apply map_ext. intros r. apply select_columns_append_row.
Qed.

Lemma process_batch_append_only_witness :
  ∃ w',
    process_batch append_sink
      [row [("at", VStr "09:00"); ("cost", VDecimal "1.50")];
       row [("at", VStr "09:05")]] (World ∅ [] ∅) = (Return (), w') ∧
    tables w' =
      {[ "events" := Table ["at"; "cost"]
                       [row [("at", VStr "09:00"); ("cost", VStr "1.50")];
                        row [("at", VStr "09:05"); ("cost", VNone)]] ]}.
Proof.
  destruct (process_batch_append_only append_sink
              [row [("at", VStr "09:00"); ("cost", VDecimal "1.50")];
               row [("at", VStr "09:05")]] (World ∅ [] ∅))
    as (w' & Hrun & Htables & _).
  - reflexivity.
  - reflexivity.
  - apply (bool_decide_unpack _). vm_compute. exact I.
  - apply (bool_decide_unpack _). vm_compute. exact I.
  - reflexivity.
  - discriminate.
  - exists w'. split; [exact Hrun |]. rewrite Htables. vm_compute. reflexivity.
Defined.



(** * Set-up *)


(** * More on the dedup branch *)

Lemma dedup_fold_keys cols primary_keys records d :
  (dedup_fold cols primary_keys records d).*1 =
  (d.*1 ++ filter (λ k, k ∉ d.*1)
             (first_occurrences (map (composite_key primary_keys) records)))%list.
Proof.
  revert d. induction records as [| r records IH]; intros d.
  - cbn. by rewrite app_nil_r.
  - change (dedup_fold cols primary_keys (r :: records) d)
      with (dedup_fold cols primary_keys records
              (dict_set (composite_key primary_keys r) (project cols r) d)).
    rewrite IH, dict_set_keys. cbn [map first_occurrences].
    set (k := composite_key primary_keys r).
    set (fo := first_occurrences (map (composite_key primary_keys) records)).
    destruct (decide (k ∈ d.*1)) as [Hin | Hnin].
    + rewrite filter_cons_False by (intros Hk; by apply Hk).
      f_equal. rewrite list_filter_filter. apply list_filter_iff.
      intros x. split; [intros Hx; split; [done | congruence] | by intros [? _]].
    + rewrite filter_cons_True by done. rewrite <- app_assoc. cbn [app]. do 2 f_equal.
      rewrite list_filter_filter. apply list_filter_iff.
      intros x. rewrite elem_of_app, list_elem_of_singleton. tauto.
Qed.

Lemma omap_keys_values {V} (f : string → option V) (d : list (string * V)) :
  Forall (λ kv, f kv.1 = Some kv.2) d → omap f d.*1 = d.*2.
Proof.
  induction 1 as [| [k v] d Hkv _ IH]; [done |]. cbn in *. by rewrite Hkv, IH.
Qed.

Lemma length_first_occurrences l : (length (first_occurrences l) ≤ length l)%nat.
Proof.
  induction l as [| k l IH]; [done |]. cbn.
  pose proof (length_filter (λ x, x ≠ k) (first_occurrences l)). lia.
Qed.

(** The whole result of the dedup branch, when no record lacks a key
    field: for each distinct composite key, in the order in which the
    keys first occur in the batch, the projection of the last record
    with that key.  So the result is never longer than the batch. *)
Theorem dedup_result t cols primary_keys records :
  Forall (has_keys primary_keys) records →
  ∃ out,
    prepare_records false t cols records primary_keys = Return out ∧
    out = omap (λ k, project cols <$> last_with_key primary_keys k records)
               (first_occurrences (map (composite_key primary_keys) records)) ∧
    (length out ≤ length records)%nat.
Proof.
  intros Hall.
  assert (prepare_records false t cols records primary_keys =
          Return (dedup_fold cols primary_keys records []).*2) as Hrun.
  { unfold prepare_records. cbn [negb]. by rewrite dedup_loop_ok. }
  destruct (dedup_fold_spec cols primary_keys records []) as [Hnd Hin];
    [apply NoDup_nil_2 |].
  pose proof (dedup_fold_keys cols primary_keys records []) as Hkeys.
  cbn [fmap list_fmap app] in Hkeys.
  rewrite (filter_all (λ k, k ∉ [])) in Hkeys
    by (apply Forall_forall; intros x _; apply not_elem_of_nil).
  eexists. split; [exact Hrun |]. split.
  - rewrite <- Hkeys. symmetry. apply omap_keys_values.
    apply Forall_forall. intros [k v] Hkv. cbn.
    apply Hin in Hkv as [(r & Hr & ->) | [_ Hnil]]; [by rewrite Hr |].
    by apply elem_of_nil in Hnil.
  - rewrite length_fmap, <- (length_fmap fst), Hkeys.
    etrans; [apply length_first_occurrences |]. by rewrite length_map.
Qed.

Lemma dedup_result_witness :
  let r1 := row [("id", VInt 1); ("name", VStr "ann")] in
  let r2 := row [("id", VInt 2); ("name", VStr "bob")] in
  let r3 := row [("id", VInt 1); ("name", VStr "cat")] in
  ∃ out,
    prepare_records false staging_handle ["id"; "name"] [r1; r2; r3] ["id"] = Return out ∧
    out = [project ["id"; "name"] r3; project ["id"; "name"] r2].
Proof.
  intros r1 r2 r3.
  destruct (dedup_result staging_handle ["id"; "name"] ["id"] [r1; r2; r3])
    as (out & Hrun & Hout & _).
  - repeat constructor; by eexists.
  - exists out. split; [exact Hrun |]. rewrite Hout. vm_compute. reflexivity.
Defined.

Lemma dict_set_fresh {V} k (v : V) (d : list (string * V)) :
  k ∉ d.*1 → dict_set k v d = (d ++ [(k, v)])%list.
Proof.
  induction d as [| [k' v'] d IH]; intros Hk; [done |]. cbn [dict_set].
  rewrite fmap_cons in Hk. cbn [fst] in Hk.
  rewrite decide_False by (intros ->; apply Hk; by left).
  rewrite IH by (intros Hin; apply Hk; by right). done.
Qed.

Lemma dedup_fold_distinct cols primary_keys records d :
  NoDup (d.*1 ++ map (composite_key primary_keys) records) →
  dedup_fold cols primary_keys records d =
  (d ++ map (λ r, (composite_key primary_keys r, project cols r)) records)%list.
Proof.
  revert d. induction records as [| r records IH]; intros d Hnd.
  - cbn. by rewrite app_nil_r.
  - change (dedup_fold cols primary_keys (r :: records) d)
      with (dedup_fold cols primary_keys records
              (dict_set (composite_key primary_keys r) (project cols r) d)).
    cbn [map] in Hnd.
    assert (composite_key primary_keys r ∉ d.*1) as Hfresh.
    { apply NoDup_app in Hnd as (_ & Hdisj & _). intros Hin.
      apply (Hdisj _ Hin). by left. }
    rewrite dict_set_fresh by done. rewrite IH.
    + cbn [map]. by rewrite <- app_assoc.
    + rewrite fmap_app. cbn. rewrite <- app_assoc. exact Hnd.
Qed.

(** When the composite keys of the batch are pairwise distinct and no
    record lacks a key field, the dedup branch passes the batch through:
    one row per record, in arrival order, holding for every declared
    column the record's value as it is; nothing is sanitized in this
    branch, a Decimal stays a Decimal. *)
Theorem dedup_passthrough t cols primary_keys records :
  Forall (has_keys primary_keys) records →
  NoDup (map (composite_key primary_keys) records) →
  prepare_records false t cols records primary_keys =
    Return (map (project cols) records) ∧
  ∀ r c, r ∈ records → c ∈ cols → project cols r !! c = Some (cell r c).
Proof.
  intros Hall Hnd. split.
  - unfold prepare_records. cbn [negb]. rewrite dedup_loop_ok by done.
    rewrite dedup_fold_distinct by done. cbn [app]. unfold dict_values.
    by rewrite map_map.
  - intros r c _ Hc. by rewrite project_lookup, decide_True.
Qed.

Lemma dedup_passthrough_witness :
  let r1 := row [("id", VInt 1); ("cost", VDecimal "1.50")] in
  let r2 := row [("id", VInt 2); ("cost", VDecimal "2.00")] in
  prepare_records false staging_handle ["id"; "cost"] [r1; r2] ["id"] =
    Return [row [("id", VInt 1); ("cost", VDecimal "1.50")];
            row [("id", VInt 2); ("cost", VDecimal "2.00")]].
Proof.
  intros r1 r2.
  destruct (dedup_passthrough staging_handle ["id"; "cost"] ["id"] [r1; r2])
    as [Hrun _].
  - repeat constructor; by eexists.
  - apply (bool_decide_unpack _). vm_compute. exact I.
  - rewrite Hrun. vm_compute. reflexivity.
Defined.

(** * More on [sanitize_entry] *)

(** Sanitizing a sanitized value changes nothing. *)
Theorem sanitize_entry_idempotent v :
  sanitize_entry (sanitize_entry v) = sanitize_entry v.
Proof. apply sanitize_entry_id, sanitize_entry_no_decimal. Qed.

(** * The shape of the staging name *)

Lemma str_length_app (a b : string) :
  String.length (a +:+ b) = (String.length a + String.length b)%nat.
Proof.
  induction a as [| c a IH]; [done |]. rewrite str_app_cons. cbn. by rewrite IH.
Qed.

Lemma str_length_substring (s : string) (n m : nat) :
  (n + m ≤ String.length s)%nat → String.length (substring n m s) = m.
Proof.
  revert n m. induction s as [| c s IH]; intros n m Hle; cbn in Hle.
  - assert (n = 0%nat ∧ m = 0%nat) as [-> ->] by lia. done.
  - destruct n as [| n]; cbn.
    + destruct m as [| m]; [done |]. cbn. rewrite (IH 0%nat m) by lia. done.
    + apply IH. lia.
Qed.

Lemma str_length_of_list (l : list ascii) :
  String.length (string_of_list_ascii l) = length l.
Proof. induction l as [| c l IH]; [done |]. cbn. by rewrite IH. Qed.

Lemma str_length_replace a b (s : string) :
  String.length (str_replace a b s) = String.length s.
Proof. induction s as [| c s IH]; [done |]. cbn. by rewrite IH. Qed.

Lemma str_forall_app P (a b : string) :
  str_forall P (a +:+ b) = str_forall P a && str_forall P b.
Proof.
  induction a as [| c a IH]; [done |]. rewrite str_app_cons. cbn.
  by rewrite IH, andb_assoc.
Qed.

Lemma str_forall_substring P (s : string) (n m : nat) :
  str_forall P s = true → str_forall P (substring n m s) = true.
Proof.
  revert n m. induction s as [| c s IH]; intros n m Hs.
  - by destruct n, m.
  - cbn in Hs. apply andb_true_iff in Hs as [Hc Hs].
    destruct n as [| n]; cbn.
    + destruct m as [| m]; [done |]. cbn. by rewrite Hc, (IH 0%nat m).
    + by apply IH.
Qed.

Lemma str_forall_of_list P (l : list ascii) :
  Forall (λ c, P c = true) l → str_forall P (string_of_list_ascii l) = true.
Proof. induction 1 as [| c l Hc _ IH]; [done |]. cbn. by rewrite Hc, IH. Qed.

Lemma str_forall_replace (P Q : ascii → bool) a b (s : string) :
  (∀ c, P c = true → Q (if decide (c = a) then b else c) = true) →
  str_forall P s = true → str_forall Q (str_replace a b s) = true.
Proof.
  intros HPQ. induction s as [| c s IH]; [done |]. cbn.
  intros [Hc Hs]%andb_true_iff. by rewrite (HPQ c Hc), IH.
Qed.

Lemma hex_digit_is_hex (d : Z) : 0 ≤ d < 16 → is_hex_char (hex_digit d) = true.
Proof.
  intros Hd.
  assert (d = 0 ∨ d = 1 ∨ d = 2 ∨ d = 3 ∨ d = 4 ∨ d = 5 ∨ d = 6 ∨ d = 7 ∨
          d = 8 ∨ d = 9 ∨ d = 10 ∨ d = 11 ∨ d = 12 ∨ d = 13 ∨ d = 14 ∨ d = 15)
    as Hcases by lia.
  repeat (destruct Hcases as [-> | Hcases]; [reflexivity |]). by subst.
Qed.

Lemma hex32_length n : String.length (hex32 n) = 32%nat.
Proof. unfold hex32. by rewrite str_length_of_list, length_map, length_seq. Qed.

Lemma hex32_is_hex n : str_forall is_hex_char (hex32 n) = true.
Proof.
  unfold hex32. apply str_forall_of_list. apply Forall_forall.
  intros c (i & -> & _)%list_elem_of_fmap. apply hex_digit_is_hex.
  change 15 with (Z.ones 4). rewrite Z.land_ones by lia.
  apply Z.mod_pos_bound. lia.
Qed.

(** Whatever the random bytes, the staging name is 36 characters long
    and made of lower-case hexadecimal digits and underscores only (no
    dash is left). *)
Theorem temp_table_name_shape random_bytes :
  String.length (generate_temp_table_name random_bytes) = 36%nat ∧
  str_forall is_token_char (generate_temp_table_name random_bytes) = true.
Proof.
  unfold generate_temp_table_name, uuid_str.
  pose proof (hex32_length (uuid4 random_bytes)) as Hlen.
  pose proof (hex32_is_hex (uuid4 random_bytes)) as Hhex.
  set (h := hex32 (uuid4 random_bytes)) in *. split.
  - rewrite str_length_replace, !str_length_app.
    rewrite !str_length_substring by lia. done.
  - apply (str_forall_replace
             (λ c, is_hex_char c || bool_decide (c = "-"%char))).
    { intros c Hc. cbn beta in Hc. apply orb_true_iff in Hc as [Hc | Hc].
      - case_decide as Hd; [done |]. unfold is_token_char. by rewrite Hc.
      - apply bool_decide_eq_true_1 in Hc. subst c. done. }
    rewrite !str_forall_app.
    assert (∀ n m, str_forall (λ c, is_hex_char c || bool_decide (c = "-"%char))
                     (substring n m h) = true) as Hsub.
    { intros n m. apply str_forall_substring.
      clear Hlen. induction h as [| c h IH]; [done |]. cbn in *.
      apply andb_true_iff in Hhex as [Hc Hh]. by rewrite Hc, IH. }
    by rewrite !Hsub.
Qed.

(** * The schema name of a stream *)

Lemma str_split_no_sep sep (s : string) :
  str_mem sep s = false → str_split sep s = [s].
Proof.
  induction s as [| c s IH]; [done |]. cbn [str_mem str_split].
  destruct (decide (sep = c)) as [-> | Hne]; [done |].
  intros Hs. rewrite decide_False by congruence. by rewrite IH.
Qed.

Lemma str_split_app sep (a b : string) :
  str_mem sep a = false →
  str_split sep (a +:+ String sep b) = a :: str_split sep b.
Proof.
  induction a as [| c a IH].
  - intros _. change ("" +:+ String sep b) with (String sep b). cbn [str_split].
    by rewrite decide_True.
  - cbn [str_mem]. destruct (decide (sep = c)) as [-> | Hne]; [done |].
    intros Ha. rewrite str_app_cons. cbn [str_split].
    rewrite decide_False by congruence. by rewrite IH.
Qed.

Lemma str_split_parts sep (s : string) :
  Forall (λ p, str_mem sep p = false) (str_split sep s) ∧ str_split sep s ≠ [].
Proof.
  induction s as [| c s [IH Hne]]; [by repeat constructor |]. cbn [str_split].
  destruct (decide (c = sep)) as [-> | Hc].
  - split; [| done]. by constructor.
  - destruct (str_split sep s) as [| p ps]; [done |]. split; [| done].
    apply Forall_cons in IH as [Hp Hps]. constructor; [| done].
    cbn. by rewrite decide_False by congruence.
Qed.

Lemma schema_name_no_default d s :
  no_default d →
  schema_name d s =
    if bool_decide (length (str_split "-" s) = 2%nat ∨ length (str_split "-" s) = 3%nat)
    then Some (second_to_last (str_split "-" s)) else None.
Proof. by intros [-> | ->]. Qed.

(** A configured, non-empty default schema is the schema name of every
    stream, whatever the stream is called. *)
Theorem schema_name_default d s : d ≠ "" → schema_name (Some d) s = Some d.
Proof.
  intros Hd. unfold schema_name. by rewrite bool_decide_eq_false_2.
Qed.

Lemma schema_name_default_witness :
  schema_name (Some "melty") "public-users" = Some "melty".
Proof. apply (schema_name_default "melty" "public-users"). discriminate. Defined.

(** Without a default schema the name comes from the stream name split
    at dashes: none for a name without dash, the first part of a
    two-part name, the middle part of a three-part name, none again for
    four parts or more; and a schema name found this way has no dash. *)
Theorem schema_name_from_stream d :
  no_default d →
  (∀ s, str_mem "-" s = false → schema_name d s = None) ∧
  (∀ a b, str_mem "-" a = false → str_mem "-" b = false →
     schema_name d (a +:+ "-" +:+ b) = Some a) ∧
  (∀ x a b, str_mem "-" x = false → str_mem "-" a = false → str_mem "-" b = false →
     schema_name d (x +:+ "-" +:+ a +:+ "-" +:+ b) = Some a) ∧
  (∀ x y a b, str_mem "-" x = false → str_mem "-" y = false → str_mem "-" a = false →
     schema_name d (x +:+ "-" +:+ y +:+ "-" +:+ a +:+ "-" +:+ b) = None) ∧
  (∀ s n, schema_name d s = Some n → str_mem "-" n = false).
Proof.
  intros Hd. repeat split.
  - intros s Hs. rewrite schema_name_no_default, str_split_no_sep by done. done.
  - intros a b Ha Hb. rewrite schema_name_no_default by done.
    change ("-" +:+ b) with (String "-" b).
    rewrite str_split_app, str_split_no_sep by done. done.
  - intros x a b Hx Ha Hb. rewrite schema_name_no_default by done.
    change ("-" +:+ a +:+ "-" +:+ b) with (String "-" (a +:+ String "-" b)).
    rewrite !str_split_app, str_split_no_sep by done. done.
  - intros x y a b Hx Hy Ha. rewrite schema_name_no_default by done.
    change ("-" +:+ y +:+ "-" +:+ a +:+ "-" +:+ b)
      with (String "-" (y +:+ String "-" (a +:+ String "-" b))).
    rewrite !str_split_app by done.
    destruct (str_split_parts "-" b) as [_ Hne].
    destruct (str_split "-" b) as [| p ps]; [done |].
    rewrite bool_decide_eq_false_2; [done |]. cbn. lia.
  - intros s n. rewrite schema_name_no_default by done.
    case_bool_decide as Hlen; [| done]. intros [= <-].
    destruct (str_split_parts "-" s) as [Hparts _].
    unfold second_to_last.
    destruct (str_split "-" s !! (length (str_split "-" s) - 2)%nat) as [p |] eqn:Hp;
      [| done].
    cbn. rewrite Forall_forall in Hparts. apply Hparts.
    by apply list_elem_of_lookup_2 in Hp.
Qed.

Lemma schema_name_from_stream_witness :
  schema_name None "users" = None ∧
  schema_name None "public-users" = Some "public" ∧
  schema_name (Some "") "db-public-users" = Some "public".
Proof.
  destruct (schema_name_from_stream None (or_introl eq_refl)) as (H1 & H2 & _).
  destruct (schema_name_from_stream (Some "") (or_intror eq_refl)) as (_ & _ & H3 & _).
  split; [apply (H1 "users"); reflexivity |].
  split; [apply (H2 "public" "users"); reflexivity |].
  apply (H3 "db" "public" "users"); reflexivity.
Defined.

(** * Processing a batch again *)

Lemma last_with_key_elem primary_keys k records r :
  last_with_key primary_keys k records = Some r → r ∈ records.
Proof.
  unfold last_with_key. intros Hlast%last_Some_elem_of.
  by apply list_elem_of_filter in Hlast as [_ ?].
Qed.

Lemma prepared_keys_not_null t cols primary_keys records data :
  primary_keys ⊆ cols →
  Forall (has_key_values primary_keys) records →
  prepare_records false t cols records primary_keys = Return data →
  Forall (keys_not_null primary_keys) data.
Proof.
  intros Hsub Hall Hprep.
  destruct (prepare_records_dedup t cols primary_keys records) as (d & Hrun & _ & Hin).
  { eapply Forall_impl; [exact Hall |]. apply has_key_values_has_keys. }
  rewrite Hrun in Hprep. injection Hprep as <-.
  apply Forall_forall. intros o (kv & -> & Hkv)%list_elem_of_fmap.
  destruct kv as [k v]. apply Hin in Hkv as (r & Hlast & ->).
  apply last_with_key_elem in Hlast.
  rewrite Forall_forall in Hall. specialize (Hall r Hlast).
  unfold keys_not_null. unfold has_key_values in Hall.
  rewrite Forall_forall in Hall |- *. intros key Hkey.
  destruct (Hall key Hkey) as (x & Hx & Hnn).
  cbn. unfold cell. rewrite project_lookup, decide_True by auto.
  cbn. unfold cell. by rewrite Hx.
Qed.

(** Processing the same batch a second time is harmless in upsert mode
    when the batch is not empty and every record has a value other than
    [None] in every key field (and no table is left under the staging
    name): both runs return normally and the second leaves every table as
    the first left it. *)
Theorem process_batch_again self records w :
  let cols := column_representation (schema_properties self) in
  let name := full_table_name self in
  let temp := temp_table_name self in
  let keys := key_properties self in
  let dest := default (Table cols []) (tables w !! name) in
  _append_only self = Some false →
  keys ≠ [] → keys ⊆ cols → cols ⊆ columns dest →
  temp ≠ name →
  tables w !! temp = None →
  records ≠ [] →
  Forall (has_key_values keys) records →
  ∃ w1 w2,
    process_batch self records w = (Return (), w1) ∧
    process_batch self records w1 = (Return (), w2) ∧
    tables w2 = tables w1.
Proof.
  cbn zeta. intros Hmode Hne Hkeys Hcols Htemp Hfree Hsome Hall.
  assert (Forall (has_keys (key_properties self)) records) as Hhas.
  { eapply Forall_impl; [exact Hall |]. apply has_key_values_has_keys. }
  destruct (process_batch_upsert_run self records w Hmode Hne Hkeys Hcols Htemp Hfree
              Hsome Hhas)
    as (data & w1 & Hprep & Hrun1 & Htables1 & _).
  assert (tables w1 !! full_table_name self =
          Some (merge (key_properties self)
                      (column_representation (schema_properties self))
                      (column_representation (schema_properties self))
                      (Table (column_representation (schema_properties self)) data)
                      (default (Table (column_representation (schema_properties self)) [])
                               (tables w !! full_table_name self)))) as Hdest1.
  { rewrite Htables1. apply lookup_insert_eq. }
  destruct (process_batch_upsert_run self records w1) as (data2 & w2 & Hprep2 & Hrun2 & Htables2 & _);
    try done.
  { by rewrite Hdest1. }
  { rewrite Htables1. by rewrite lookup_insert_ne by congruence. }
  exists w1, w2. split; [exact Hrun1 |]. split; [exact Hrun2 |].
  rewrite Hprep in Hprep2. injection Hprep2 as <-.
  rewrite Htables2, Hdest1. cbn [default from_option id].
  rewrite merge_idemp; [| done | done |].
  - rewrite Htables1. by rewrite insert_insert_eq.
  - cbn [rows]. by eapply prepared_keys_not_null.
Qed.

Lemma process_batch_again_witness :
  ∃ w1 w2,
    process_batch (users_sink false)
      [row [("id", VInt 1); ("name", VStr "ann")];
       row [("id", VInt 2); ("name", VStr "bob")]] users_only_world = (Return (), w1) ∧
    process_batch (users_sink false)
      [row [("id", VInt 1); ("name", VStr "ann")];
       row [("id", VInt 2); ("name", VStr "bob")]] w1 = (Return (), w2) ∧
    tables w2 = tables w1.
Proof.
  apply (process_batch_again (users_sink false)
           [row [("id", VInt 1); ("name", VStr "ann")];
            row [("id", VInt 2); ("name", VStr "bob")]] users_only_world).
  - reflexivity.
  - discriminate.
  - apply (bool_decide_unpack _). vm_compute. exact I.
  - apply (bool_decide_unpack _). vm_compute. exact I.
  - apply (bool_decide_unpack _). vm_compute. exact I.
  - reflexivity.
  - discriminate.
  - repeat constructor; eexists; (split; [reflexivity | discriminate]).
Defined.

(** * Rows without a version under soft delete *)

Lemma cell_insert_eq (r : record) c v : cell (<[c := v]> r) c = v.
Proof. unfold cell. by rewrite lookup_insert_eq. Qed.

Lemma cell_insert_ne (r : record) c c' v : c ≠ c' → cell (<[c := v]> r) c' = cell r c'.
Proof. intros Hne. unfold cell. by rewrite lookup_insert_ne. Qed.

(** A row whose version is NULL is stamped at most once: after a first
    soft-delete run (whose instant is not [None]) any later run, with
    any watermark, leaves the row as the first run left it. *)
Theorem soft_delete_null_version_once self w tb n1 n2 at1 at2 :
  hard_delete self = false →
  tables w !! full_table_name self = Some tb →
  version_column_name self ≠ soft_delete_column_name self →
  at1 ≠ VNone →
  ∃ w1 w2 tb1 tb2,
    activate_version self n1 at1 w = (Return (), w1) ∧
    activate_version self n2 at2 w1 = (Return (), w2) ∧
    tables w1 !! full_table_name self = Some tb1 ∧
    tables w2 !! full_table_name self = Some tb2 ∧
    ∀ i r, rows tb !! i = Some r → cell r (version_column_name self) = VNone →
      is_Some (rows tb1 !! i) ∧ rows tb2 !! i = rows tb1 !! i.
Proof.
  intros Hsoft Htb Hcols Hat.
  set (v := version_column_name self) in *. set (d := soft_delete_column_name self) in *.
  eexists _, _, _, _.
  split; [by apply activate_version_soft |].
  split; [apply activate_version_soft; [done |]; cbn [tables]; apply lookup_insert_eq |].
  cbn [tables]. split; [apply lookup_insert_eq |]. split; [apply lookup_insert_eq |].
  intros i r Hr Hnull. fold v d.
  unfold mark_deleted. cbn [rows]. rewrite !add_column_rows. cbn [rows].
  rewrite ?add_column_rows.
  change (map ?f ?l) with (f <$> l). rewrite !list_lookup_fmap, Hr. cbn [fmap option_fmap option_map].
  split; [by eexists |]. f_equal.
  set (r1 := if holds (mark_where v d n1 r) then <[d := at1]> r else r).
  assert (cell r1 v = VNone ∧ cell r1 d ≠ VNone) as [Hv Hd].
  { subst r1. destruct (holds (mark_where v d n1 r)) eqn:Hh.
    - rewrite cell_insert_ne by congruence. by rewrite cell_insert_eq.
    - split; [done |]. intros Hdn.
      assert (marked v d n1 r) as Hm by (by right).
      apply mark_where_holds in Hm. congruence. }
  destruct (holds (mark_where v d n2 r1)) eqn:Hh2; [| done].
  apply mark_where_holds in Hh2 as [(z & Hz & _) | [_ Hdn]]; congruence.
Qed.

Lemma soft_delete_null_version_once_witness :
  ∃ w1 w2 tb1 tb2,
    activate_version (users_sink false) 2 (instant "2024-01-01T00:00:00+00:00")
      users_1_2_null = (Return (), w1) ∧
    activate_version (users_sink false) 9 (instant "2024-02-01T00:00:00+00:00") w1
      = (Return (), w2) ∧
    tables w1 !! "users" = Some tb1 ∧
    tables w2 !! "users" = Some tb2 ∧
    rows tb2 !! 2%nat = rows tb1 !! 2%nat.
Proof.
  destruct (soft_delete_null_version_once (users_sink false) users_1_2_null
              (Table ["id"; "name"; "_sdc_table_version"; "_sdc_deleted_at"]
                     [user 1 (VInt 1); user 2 (VInt 2); user 3 VNone])
              2 9 (instant "2024-01-01T00:00:00+00:00")
              (instant "2024-02-01T00:00:00+00:00"))
    as (w1 & w2 & tb1 & tb2 & Hrun1 & Hrun2 & Htb1 & Htb2 & Hrows);
    [reflexivity | reflexivity | discriminate | discriminate |].
  exists w1, w2, tb1, tb2.
  split; [exact Hrun1 |]. split; [exact Hrun2 |]. split; [exact Htb1 |].
  split; [exact Htb2 |].
  apply (Hrows 2%nat (user 3 VNone)); reflexivity.
Defined.
